(** * Schema Validator node: validation orchestration engine

    A shallow embedding of the TypeScript sources
      - lib/dataExtractor.ts  (custom-value and path extraction),
      - lib/validator.ts      (validator boundary and error normalisation),
      - lib/schemaParser.ts   (schema source),
      - the SchemaValidator node class ([execute] and its two strategies),
    followed by the properties of the specification that concern them.

    JavaScript values are a tagged union; objects are finite maps from
    strings to values.  Code that can throw lives in a small state and
    exception monad whose state holds the two output arrays of the node and
    the log of validator invocations. *)

From Stdlib Require Import ZArith Lia List Permutation Sorted.
From stdpp Require Import base option list strings gmap pretty.
From Stdlib Require Import Ascii.

Set Warnings "-register-all".
Set Default Proof Using "Type".
Open Scope string_scope.
Open Scope list_scope.

(** ** JavaScript values *)

(** Numbers are only ever stored and compared with [0] by the code under
    study, never computed with, so an integer payload is enough. *)
Inductive value : Type :=
  | JUndefined
  | JNull
  | JBool (b : bool)
  | JNum (n : Z)
  | JStr (s : string)
  | JArr (l : list value)
  | JObj (m : gmap string value).

(** [!x] of JavaScript: the falsy values ([NaN] is no integer). *)
Definition js_falsy (v : value) : bool :=
  match v with
  | JUndefined | JNull => true
  | JBool b => negb b
  | JNum n => Z.eqb n 0
  | JStr s => String.eqb s EmptyString
  | JArr _ | JObj _ => false
  end.

(** [a || b] on strings: the empty string is falsy. *)
Definition str_or (a b : string) : string :=
  if String.eqb a EmptyString then b else a.

(** [a || b] where [a] may be absent ([undefined]) or a string. *)
Definition opt_str_or (a : option string) (b : string) : string :=
  match a with
  | Some s => str_or s b
  | None => b
  end.

(** [typeof v === 'object'] (which holds of [null] too). *)
Definition typeof_object (v : value) : bool :=
  match v with
  | JNull | JArr _ | JObj _ => true
  | _ => false
  end.

Definition is_undefined (v : value) : bool :=
  match v with JUndefined => true | _ => false end.

Definition Array_isArray (v : value) : bool :=
  match v with JArr _ => true | _ => false end.

(** ** Exceptions *)

Inductive exn : Type :=
  | Error (msg : string)
  | TypeError (msg : string)
  | NodeOperationError (msg : string).

(** [error instanceof Error ? error.message : String(error)]: every
    exception of the model is an [Error] instance. *)
Definition exn_message (e : exn) : string :=
  match e with
  | Error m | TypeError m | NodeOperationError m => m
  end.

Inductive result (A : Type) : Type :=
  | Ok (a : A)
  | Throw (e : exn).
Arguments Ok {A} a.
Arguments Throw {A} e.

(** ** Strings *)

Definition dquote : string := String (Ascii.ascii_of_nat 34) EmptyString.

(** [Array.prototype.join] on strings. *)
Fixpoint join (sep : string) (l : list string) : string :=
  match l with
  | [] => EmptyString
  | [x] => x
  | x :: rest => x +:+ sep +:+ join sep rest
  end.

(** [s.split(c)] for a one-character separator: never empty, the empty
    string splits into one empty piece. *)
Fixpoint split_on (c : ascii) (s : string) : list string :=
  match s with
  | EmptyString => [EmptyString]
  | String a rest =>
      if Ascii.eqb a c then EmptyString :: split_on c rest
      else match split_on c rest with
           | [] => [String a EmptyString]
           | p :: ps => String a p :: ps
           end
  end.

Definition is_digit (a : ascii) : bool :=
  let n := Ascii.nat_of_ascii a in (48 <=? n)%nat && (n <=? 57)%nat.

(** The class [\w] of JavaScript regular expressions: [A-Za-z0-9_]. *)
Definition is_word_char (a : ascii) : bool :=
  let n := Ascii.nat_of_ascii a in
  is_digit a
  || ((65 <=? n)%nat && (n <=? 90)%nat)
  || ((97 <=? n)%nat && (n <=? 122)%nat)
  || (n =? 95)%nat.

(** Longest prefix of characters satisfying [p], and the rest. *)
Fixpoint span_chars (p : ascii -> bool) (s : string) : string * string :=
  match s with
  | EmptyString => (EmptyString, EmptyString)
  | String a rest =>
      if p a then let '(x, y) := span_chars p rest in (String a x, y)
      else (EmptyString, s)
  end.

(** [parseInt(ds, 10)] on a string of decimal digits.  The exact number is
    kept; JavaScript rounds beyond 2^53, where no array has an element
    anyway. *)
Fixpoint parse_digits (acc : nat) (ds : string) : nat :=
  match ds with
  | EmptyString => acc
  | String a rest => parse_digits (10 * acc + (Ascii.nat_of_ascii a - 48)) rest
  end.

Definition parseInt10 (ds : string) : nat := parse_digits 0 ds.

(** [part.match(/^(\w+)\[(\d+)\]$/)]: the two captured groups.  The opening
    bracket is no word character, so the greedy [\w+] can only stop at the
    end of the longest word prefix. *)
Definition arrayMatch (part : string) : option (string * string) :=
  let '(name, rest) := span_chars is_word_char part in
  match name, rest with
  | String _ _, String open rest1 =>
      if Ascii.eqb open (Ascii.ascii_of_nat 91) then
        let '(digits, rest2) := span_chars is_digit rest1 in
        match digits, rest2 with
        | String _ _, String close EmptyString =>
            if Ascii.eqb close (Ascii.ascii_of_nat 93) then Some (name, digits)
            else None
        | _, _ => None
        end
      else None
  | _, _ => None
  end.

(** ** Property access *)

(** A path part after parsing: a key (string) or an index (number). *)
Inductive part : Type :=
  | Key (k : string)
  | Index (n : nat).

(** A string that is the canonical decimal form of an array index. *)
Definition canonical_index (k : string) : option nat :=
  match k with
  | EmptyString => None
  | String a rest =>
      if forallb is_digit (String.list_ascii_of_string k)
         && (negb (Ascii.eqb a (Ascii.ascii_of_nat 48)) || String.eqb rest EmptyString)
      then Some (parseInt10 k) else None
  end.

(** [v[p]].  Reading a property of [null] or [undefined] throws a
    [TypeError]; a missing property reads as [undefined].  Only own data
    properties are modelled: members inherited from the built-in prototypes
    are functions, which are no data values.  Primitive numbers, booleans
    and strings are never read by the code (both reads sit behind an
    [Array.isArray] or [typeof] guard). *)
Definition js_get (v : value) (p : part) : result value :=
  match v with
  | JUndefined | JNull =>
      Throw (TypeError "Cannot read properties of undefined or null")
  | JArr l =>
      match p with
      | Index n => Ok (nth n l JUndefined)
      | Key k =>
          match canonical_index k with
          | Some n => Ok (nth n l JUndefined)
          | None =>
              if String.eqb k "length" then Ok (JNum (Z.of_nat (length l)))
              else Ok JUndefined
          end
      end
  | JObj m =>
      match p with
      | Key k => Ok (default JUndefined (m !! k))
      | Index n => Ok (default JUndefined (m !! pretty n))
      end
  | JBool _ | JNum _ | JStr _ => Ok JUndefined
  end.

(** ** Path extraction (lib/dataExtractor.ts) *)

(** The callback of [flatMap]: ['items[0]'] becomes the key and the index. *)
Definition parse_part (p : string) : list part :=
  match arrayMatch p with
  | Some (name, digits) => [Key name; Index (parseInt10 digits)]
  | None => [Key p]
  end.

Definition parse_path (path : string) : list part :=
  flat_map parse_part (split_on (Ascii.ascii_of_nat 46) path).

Definition is_nullish (v : value) : bool :=
  match v with JUndefined | JNull => true | _ => false end.

Definition rbind {A B} (r : result A) (k : A -> result B) : result B :=
  match r with
  | Ok a => k a
  | Throw e => Throw e
  end.

(** The [for (const part of parts)] loop over the value [current]. *)
Fixpoint walk_parts (parts : list part) (current : value) : result value :=
  match parts with
  | [] => Ok current
  | p :: rest =>
      if is_nullish current then Ok JUndefined
      else match p with
           | Index _ =>
               if negb (Array_isArray current) then Ok JUndefined
               else rbind (js_get current p) (walk_parts rest)
           | Key _ =>
               if negb (typeof_object current) then Ok JUndefined
               else rbind (js_get current p) (walk_parts rest)
           end
  end.

(** ** Host records *)

(** [INodeExecutionData]: the [json] payload, the optional [binary]
    payload, the position reference [pairedItem], and whatever other own
    properties the host attached ([extra]). *)
Record Item : Type := mkItem {
  json : gmap string value;
  binary : option (gmap string value);
  pairedItem : option nat;
  extra : gmap string value
}.

(** [{ ...item, pairedItem: itemIndex }] *)
Definition with_pairedItem (item : Item) (itemIndex : nat) : Item :=
  mkItem (json item) (binary item) (Some itemIndex) (extra item).

Definition extractDataFromPath (item : Item) (path : string) : result value :=
  walk_parts (parse_path path) (JObj (json item)).

(** ** The error model (types.ts) *)

Record ValidationError : Type := mkValidationError {
  field : string;
  message : string;
  keyword : string;
  params : gmap string value
}.

Record ValidationResult : Type := mkValidationResult {
  isValid : bool;
  errors : list ValidationError
}.

Record MultiSchemaValidationResult : Type := mkMultiResult {
  schemaName : string;
  ms_isValid : bool;
  ms_errors : list ValidationError
}.

(** A raw diagnostic of the schema compiler ([ErrorObject]); any property
    may be missing at run time. *)
Record ErrorObject : Type := mkErrorObject {
  instancePath : option string;
  err_message : option string;
  err_keyword : string;
  err_params : option (gmap string value)
}.

(** The records above as they appear inside an output payload. *)
Definition ValidationError_value (e : ValidationError) : value :=
  JObj (list_to_map [("field", JStr (field e)); ("message", JStr (message e));
                     ("keyword", JStr (keyword e)); ("params", JObj (params e))]).

Definition errors_value (es : list ValidationError) : value :=
  JArr (map ValidationError_value es).

Definition MultiResult_value (r : MultiSchemaValidationResult) : value :=
  JObj (list_to_map [("schemaName", JStr (schemaName r));
                     ("isValid", JBool (ms_isValid r));
                     ("errors", errors_value (ms_errors r))]).

(** ** The schema compiler boundary *)

(** What one invocation of a compiled validator does: it returns a boolean
    and leaves its diagnostics in its [errors] property ([null] on
    success), or it throws. *)
Inductive Outcome : Type :=
  | Returns (b : bool) (errs : option (list ErrorObject))
  | Throws (e : exn).

(** [ValidateFunction]: a function object, with its identity. *)
Record Validator : Type := mkValidator {
  fn_id : nat;
  run : value -> Outcome
}.

(** The [Ajv] instance: [compile] returns a validator or throws. *)
Record Ajv : Type := mkAjv {
  compile : value -> result Validator
}.

(** ** State and exceptions *)

Record Call : Type := mkCall { callee : nat; argument : value }.

(** The mutable objects of one run: the two output arrays, the [errors]
    property of every validator, and the log of validator invocations. *)
Record State : Type := mkState {
  validItems : list Item;
  invalidItems : list Item;
  errorsOf : gmap nat (option (list ErrorObject));
  calls : list Call
}.

Definition initState : State := mkState [] [] ∅ [].

Definition M (A : Type) : Type := State -> result A * State.

Definition ret {A} (a : A) : M A := fun s => (Ok a, s).

Definition bind {A B} (m : M A) (k : A -> M B) : M B :=
  fun s => match m s with
           | (Ok a, s') => k a s'
           | (Throw e, s') => (Throw e, s')
           end.

Definition throw {A} (e : exn) : M A := fun s => (Throw e, s).

Definition lift {A} (r : result A) : M A := fun s => (r, s).

(** [try { m } catch (error) { h error }] *)
Definition try_catch {A} (m : M A) (h : exn -> M A) : M A :=
  fun s => match m s with
           | (Ok a, s') => (Ok a, s')
           | (Throw e, s') => h e s'
           end.

Declare Scope js_scope.
Delimit Scope js_scope with js.
Notation "x <- m ;; k" := (bind m (fun x => k))
  (at level 100, m at next level, right associativity) : js_scope.
Notation "m ;;; k" := (bind m (fun _ => k))
  (at level 100, right associativity) : js_scope.
Open Scope js_scope.

(** [validItems.push(it)] and [invalidItems.push(it)] *)
Definition push_valid (it : Item) : M unit :=
  fun s => (Ok tt, mkState (validItems s ++ [it]) (invalidItems s) (errorsOf s) (calls s)).

Definition push_invalid (it : Item) : M unit :=
  fun s => (Ok tt, mkState (validItems s) (invalidItems s ++ [it]) (errorsOf s) (calls s)).

(** [validator(data)]: the invocation is logged, the validator's [errors]
    property is overwritten, and the boolean is returned (or the exception
    propagates). *)
Definition invoke (validator : Validator) (data : value) : M bool :=
  fun s =>
    let logged := calls s ++ [mkCall (fn_id validator) data] in
    match run validator data with
    | Returns b errs =>
        (Ok b, mkState (validItems s) (invalidItems s)
                       (<[fn_id validator := errs]> (errorsOf s)) logged)
    | Throws e =>
        (Throw e, mkState (validItems s) (invalidItems s) (errorsOf s) logged)
    end.

(** [validator.errors]: [null] (or never set) reads as [None]. *)
Definition read_errors (validator : Validator) : M (option (list ErrorObject)) :=
  fun s => (Ok (default None (errorsOf s !! fn_id validator)), s).

(** The value computed by [m] from the fresh state. *)
Definition eval {A} (m : M A) : result A := fst (m initState).

(** ** Configuration supplied by the host *)

(** One entry of the [schemas] parameter ([schemaItems]). *)
Record SchemaItem : Type := mkSchemaItem {
  si_schemaName : string;
  si_schema : value;
  si_dataPath : option string
}.

(** The [options] collection; every entry may be left unset. *)
Record Options : Type := mkOptions {
  enableFormats : option bool;
  enableCustomErrors : option bool;
  strictMode : option bool;
  allErrors : option bool;
  coerceTypes : option bool;
  allowUnionTypes : option bool;
  includeErrorDetails : option bool;
  includeOriginalData : option bool
}.

(** [IExecuteFunctions]: the input items and the node parameters.  The
    [customJson] parameter is an expression evaluated per item, which can
    fail. *)
Record IExecuteFunctions : Type := mkContext {
  getInputData : list Item;
  validationMode : string;
  jsonSchema : value;
  dataSource : string;
  customJson : nat -> result value;
  schemaItems : option (list SchemaItem);
  matchMode : string;
  options : Options
}.

(** [o !== false] and plain truthiness of an optional boolean. *)
Definition not_false (o : option bool) : bool :=
  match o with Some false => false | _ => true end.

Definition truthy (o : option bool) : bool :=
  match o with Some true => true | _ => false end.

Record ValidatorOptions : Type := mkValidatorOptions {
  vo_allErrors : bool;
  vo_strict : bool;
  vo_verbose : bool;
  vo_useFormats : bool;
  vo_useCustomErrors : bool;
  vo_allowUnionTypes : bool;
  vo_coerceTypes : bool
}.

(** A schema of multiple mode after compilation. *)
Record CompiledSchema : Type := mkCompiled {
  name : string;
  validator : Validator;
  dataPath : string
}.

(** [{ isValid, error? }] of [isValidJsonSchema]. *)
Record SchemaCheck : Type := mkSchemaCheck {
  sc_isValid : bool;
  sc_error : option string
}.

(** The [for (let itemIndex = 0; ...)] loop over the items. *)
Fixpoint for_items (body : nat -> Item -> M unit) (itemIndex : nat)
    (items : list Item) : M unit :=
  match items with
  | [] => ret tt
  | item :: rest => body itemIndex item ;;; for_items body (S itemIndex) rest
  end.

(** ** lib/validator.ts *)

Definition transformError (err : ErrorObject) : ValidationError :=
  mkValidationError
    (opt_str_or (instancePath err) "/")
    (opt_str_or (err_message err) "Validation failed")
    (err_keyword err)
    (default ∅ (err_params err)).

Definition transformValidationErrors (validator : Validator)
    : M (list ValidationError) :=
  errs <- read_errors validator ;;
  ret (match errs with
       | Some l => map transformError l
       | None => []
       end).

Definition validateData (validator : Validator) (data : value)
    : M ValidationResult :=
  isValid <- invoke validator data ;;
  errors <- (if isValid then ret [] else transformValidationErrors validator) ;;
  ret (mkValidationResult isValid errors).

Definition formatValidationErrorMessage (errors : list ValidationError) : string :=
  join ", " (map (fun err => field err +:+ ": " +:+ message err) errors).

Definition isValidJsonSchema (schema : value) (ajvInstance : Ajv) : SchemaCheck :=
  match compile ajvInstance schema with
  | Ok _ => mkSchemaCheck true None
  | Throw error => mkSchemaCheck false (Some (exn_message error))
  end.

Definition createValidator (schema : value) (ajvInstance : Ajv) : result Validator :=
  compile ajvInstance schema.

(** ** Fixtures: a small platform and compiler to run the engine on *)

(** A [JSON.parse] that knows a handful of documents. *)
Definition demo_parse (s : string) : result value :=
  if String.eqb s "{}" then Ok (JObj ∅)
  else if String.eqb s "[]" then Ok (JArr [])
  else if String.eqb s "null" then Ok JNull
  else if String.eqb s "true" then Ok (JBool true)
  else if String.eqb s "false" then Ok (JBool false)
  else Throw (Error "Unexpected token in JSON").

Definition demo_type_error : ErrorObject :=
  mkErrorObject (Some EmptyString) (Some "must be object") "type"
    (Some {[ "type" := JStr "object" ]}).

Definition demo_required_error (k : string) : ErrorObject :=
  mkErrorObject (Some EmptyString)
    (Some ("must have required property " +:+ k)) "required"
    (Some {[ "missingProperty" := JStr k ]}).

(** Accepts the objects that have property [k]. *)
Definition demo_requires (id : nat) (k : string) : Validator :=
  mkValidator id (fun data =>
    match data with
    | JObj m =>
        match m !! k with
        | Some _ => Returns true None
        | None => Returns false (Some [demo_required_error k])
        end
    | _ => Returns false (Some [demo_type_error])
    end).

Definition demo_accepts_all (id : nat) : Validator :=
  mkValidator id (fun _ => Returns true None).

(** A compiler for the schemas [true], [{}] and [{required: k}]. *)
Definition demo_ajv : Ajv :=
  mkAjv (fun schema =>
    match schema with
    | JBool true => Ok (demo_accepts_all 0)
    | JObj m =>
        match m !! "required" with
        | None => Ok (demo_accepts_all 0)
        | Some (JStr k) => Ok (demo_requires (S (String.length k)) k)
        | Some _ => Throw (Error "schema is invalid: required must be a string")
        end
    | _ => Throw (Error "schema must be object or boolean")
    end).

Definition demo_options : Options :=
  mkOptions None None None None None None None None.

Definition demo_item (m : gmap string value) : Item := mkItem m None None ∅.

Definition demo_items : list Item :=
  [demo_item {[ "name" := JStr "Ada" ]};
   demo_item ∅;
   demo_item {[ "name" := JStr "Bob"; "email" := JStr "bob@example.com" ]}].

Definition demo_single : IExecuteFunctions :=
  mkContext demo_items "single" (JObj {[ "required" := JStr "name" ]})
    "entireItem" (fun _ => Ok JUndefined) None "all" demo_options.

(** Custom-value source: item 0 supplies undecodable text, item 1 the empty
    string, item 2 a decodable document. *)
Definition demo_custom : IExecuteFunctions :=
  mkContext demo_items "single" (JObj ∅) "customJson"
    (fun i => match i with
              | 0 => Ok (JStr "{name: oops}")
              | 1 => Ok (JStr EmptyString)
              | _ => Ok (JStr "{}")
              end)
    None "all" demo_options.

Definition demo_schemas : list SchemaItem :=
  [mkSchemaItem "has-name" (JObj {[ "required" := JStr "name" ]}) None;
   mkSchemaItem "has-email" (JObj {[ "required" := JStr "email" ]}) None].

Definition demo_multi (mode : string) : IExecuteFunctions :=
  mkContext demo_items "multiple" JUndefined "entireItem"
    (fun _ => Ok JUndefined) (Some demo_schemas) mode demo_options.

Definition demo_compiled : list CompiledSchema :=
  [mkCompiled "has-name" (demo_requires 5 "name") EmptyString;
   mkCompiled "has-email" (demo_requires 6 "email") EmptyString].

Definition demo_scoped : CompiledSchema :=
  mkCompiled "profile" (demo_requires 5 "name") "user.profile".

Definition demo_throws (id : nat) : Validator :=
  mkValidator id (fun _ => Throws (Error "validator crashed")).

Definition demo_throwing_ajv : Ajv := mkAjv (fun _ => Ok (demo_throws 9)).

Definition demo_bad_single : IExecuteFunctions :=
  mkContext demo_items "single" (JStr "{broken") "entireItem"
    (fun _ => Ok JUndefined) None "all" demo_options.

Definition demo_no_schemas : IExecuteFunctions :=
  mkContext demo_items "multiple" JUndefined "entireItem"
    (fun _ => Ok JUndefined) None "all" demo_options.

Definition demo_nested_item : Item :=
  demo_item {[ "user" := JObj {[ "name" := JStr "Ada" ]} ]}.

Definition demo_user_schema : CompiledSchema :=
  mkCompiled "user" (demo_requires 5 "name") "user".

Definition demo_crashing_schema : CompiledSchema :=
  mkCompiled "crash" (demo_throws 9) EmptyString.

Section Engine.

(** [JSON.parse] of the platform: a value, or a [SyntaxError]. *)
Variable JSON_parse : string -> result value.

(** The constructor and the two plug-ins of the schema compiler library:
    [new Ajv({allErrors, strict, verbose})], [addFormats], [ajvErrors]. *)
Variable new_Ajv : bool -> bool -> bool -> Ajv.
Variable addFormats : Ajv -> Ajv.
Variable ajvErrors : Ajv -> Ajv.

Definition createAjvInstance (opts : ValidatorOptions) : Ajv :=
  let ajv := new_Ajv (vo_allErrors opts) (vo_strict opts) (vo_verbose opts) in
  let ajv := if vo_useFormats opts then addFormats ajv else ajv in
  let ajv := if vo_useCustomErrors opts then ajvErrors ajv else ajv in
  ajv.

(** ** lib/schemaParser.ts *)

Definition parseSchema (schemaJson : value) : result value :=
  match schemaJson with
  | JStr s =>
      match JSON_parse s with
      | Ok v => Ok v
      | Throw error =>
          Throw (Error ("Invalid JSON schema format: " +:+ exn_message error))
      end
  | _ => Ok schemaJson
  end.

(** ** lib/dataExtractor.ts *)

Definition extractCustomJsonData (customJsonParam : value) : result value :=
  match customJsonParam with
  | JStr s =>
      match JSON_parse s with
      | Ok v => Ok v
      | Throw error =>
          Throw (Error ("Invalid custom JSON: " +:+ exn_message error))
      end
  | _ => Ok customJsonParam
  end.

Definition custom_json_required : string :=
  "Custom JSON is required when Data Source is " +:+ dquote +:+ "Custom JSON" +:+ dquote.

(** An omitted [customJsonParam] is [JUndefined]. *)
Definition extractDataToValidate (item : Item) (dataSource : string)
    (customJsonParam : value) : result value :=
  if String.eqb dataSource "customJson" then
    if js_falsy customJsonParam then Throw (Error custom_json_required)
    else extractCustomJsonData customJsonParam
  else Ok (JObj (json item)).

(** ** The node: [execute] and its two strategies *)

(** The object literal of a diagnostic record: the original fields when
    [includeOriginalData] is set, then the details property (present, but
    [undefined], when details are switched off) and the message. *)
Definition diagnostic_json (opts : Options) (item : Item)
    (detailsKey : string) (details : value) (errorMessage : string)
    : gmap string value :=
  let original := if truthy (includeOriginalData opts) then json item else ∅ in
  <["validationMessage" := JStr errorMessage]>
    (<[detailsKey := details]> original).

(** [outputItem], with [binary] carried over under [includeOriginalData]. *)
Definition diagnostic_item (opts : Options) (item : Item) (itemIndex : nat)
    (detailsKey : string) (details : value) (errorMessage : string) : Item :=
  mkItem (diagnostic_json opts item detailsKey
            (if not_false (includeErrorDetails opts) then details else JUndefined)
            errorMessage)
         (if truthy (includeOriginalData opts) then binary item else None)
         (Some itemIndex)
         ∅.

(** The item pushed by the [catch] clause of single mode. *)
Definition caught_item (opts : Options) (item : Item) (itemIndex : nat)
    (errorMessage : string) : Item :=
  mkItem (diagnostic_json opts item "validationErrors"
            (errors_value [mkValidationError "/" errorMessage "parse" ∅])
            errorMessage)
         None
         (Some itemIndex)
         ∅.

(** Body of the item loop of [executeSingleSchemaMode]. *)
Definition singleItem (context : IExecuteFunctions) (validator : Validator)
    (opts : Options) (dataSource : string) (itemIndex : nat) (item : Item)
    : M unit :=
  try_catch
    (customJsonParam <-
       (if String.eqb dataSource "customJson"
        then lift (customJson context itemIndex)
        else ret JUndefined) ;;
     dataToValidate <- lift (extractDataToValidate item dataSource customJsonParam) ;;
     result <- validateData validator dataToValidate ;;
     if isValid result then push_valid (with_pairedItem item itemIndex)
     else
       let errorMessage := formatValidationErrorMessage (errors result) in
       push_invalid (diagnostic_item opts item itemIndex "validationErrors"
                       (errors_value (errors result)) errorMessage))
    (fun error =>
       let errorMessage := exn_message error in
       push_invalid (caught_item opts item itemIndex errorMessage)).

Definition executeSingleSchemaMode (context : IExecuteFunctions)
    (items : list Item) (ajv : Ajv) (opts : Options) : M unit :=
  let schemaJson := jsonSchema context in
  let dataSource := dataSource context in
  schema <-
    try_catch
      (schema <- lift (parseSchema schemaJson) ;;
       let validationResult := isValidJsonSchema schema ajv in
       if negb (sc_isValid validationResult) then
         throw (Error ("Invalid JSON Schema: "
                       +:+ opt_str_or (sc_error validationResult) "Unknown error"))
       else ret schema)
      (fun error => throw (NodeOperationError (exn_message error))) ;;
  validator <- lift (createValidator schema ajv) ;;
  for_items (singleItem context validator opts dataSource) 0 items.

(** [schemaItem.schemaName || `Schema ${index + 1}`] *)
Definition display_name (schemaItem : SchemaItem) (index : nat) : string :=
  str_or (si_schemaName schemaItem) ("Schema " +:+ pretty (index + 1)).

(** The callback of [schemas.map]. *)
Definition compileSchemaItem (ajv : Ajv) (schemaItem : SchemaItem) (index : nat)
    : result CompiledSchema :=
  let attempt :=
    rbind (parseSchema (si_schema schemaItem)) (fun schema =>
    let validationResult := isValidJsonSchema schema ajv in
    if negb (sc_isValid validationResult) then
      Throw (Error ("Invalid JSON Schema " +:+ dquote
                    +:+ display_name schemaItem index +:+ dquote +:+ ": "
                    +:+ opt_str_or (sc_error validationResult) "Unknown error"))
    else
      rbind (createValidator schema ajv) (fun v =>
      Ok (mkCompiled (display_name schemaItem index) v
                     (opt_str_or (si_dataPath schemaItem) EmptyString)))) in
  match attempt with
  | Ok c => Ok c
  | Throw error =>
      Throw (NodeOperationError
               ("Error compiling schema " +:+ dquote
                +:+ display_name schemaItem index +:+ dquote +:+ ": "
                +:+ exn_message error))
  end.

Fixpoint compileSchemas (ajv : Ajv) (index : nat) (schemas : list SchemaItem)
    : result (list CompiledSchema) :=
  match schemas with
  | [] => Ok []
  | schemaItem :: rest =>
      rbind (compileSchemaItem ajv schemaItem index) (fun c =>
      rbind (compileSchemas ajv (S index) rest) (fun cs => Ok (c :: cs)))
  end.

(** The result pushed when the data path does not resolve. *)
Definition path_not_found (compiledSchema : CompiledSchema)
    : MultiSchemaValidationResult :=
  mkMultiResult (name compiledSchema) false
    [mkValidationError
       (dataPath compiledSchema)
       ("Path " +:+ dquote +:+ dataPath compiledSchema +:+ dquote
        +:+ " not found in item")
       "path"
       {[ "path" := JStr (dataPath compiledSchema) ]}].

(** The result pushed by the [catch] clause of the schema loop. *)
Definition caught_result (compiledSchema : CompiledSchema) (error : exn)
    : MultiSchemaValidationResult :=
  mkMultiResult (name compiledSchema) false
    [mkValidationError "/" (exn_message error) "parse" ∅].

(** Body of the schema loop: [schemaResults] after one more schema. *)
Definition schemaStep (item : Item) (compiledSchema : CompiledSchema)
    (schemaResults : list MultiSchemaValidationResult)
    : M (list MultiSchemaValidationResult) :=
  let validate_and_push (dataToValidate : value) :=
    result <- validateData (validator compiledSchema) dataToValidate ;;
    ret (schemaResults ++ [mkMultiResult (name compiledSchema)
                                         (isValid result) (errors result)]) in
  try_catch
    (if negb (String.eqb (dataPath compiledSchema) EmptyString) then
       dataToValidate <- lift (extractDataFromPath item (dataPath compiledSchema)) ;;
       if is_undefined dataToValidate
       then ret (schemaResults ++ [path_not_found compiledSchema])
       else validate_and_push dataToValidate
     else validate_and_push (JObj (json item)))
    (fun error => ret (schemaResults ++ [caught_result compiledSchema error])).

Fixpoint for_schemas (item : Item) (compiledSchemas : list CompiledSchema)
    (schemaResults : list MultiSchemaValidationResult)
    : M (list MultiSchemaValidationResult) :=
  match compiledSchemas with
  | [] => ret schemaResults
  | compiledSchema :: rest =>
      schemaResults' <- schemaStep item compiledSchema schemaResults ;;
      for_schemas item rest schemaResults'
  end.

Definition isItemValid (matchMode : string)
    (schemaResults : list MultiSchemaValidationResult) : bool :=
  if String.eqb matchMode "all" then forallb ms_isValid schemaResults
  else existsb ms_isValid schemaResults.

Definition failedSchemas (schemaResults : list MultiSchemaValidationResult)
    : list MultiSchemaValidationResult :=
  List.filter (fun r => negb (ms_isValid r)) schemaResults.

Definition errorMessages (schemaResults : list MultiSchemaValidationResult)
    : string :=
  join "; " (map (fun r => "[" +:+ schemaName r +:+ "] "
                          +:+ formatValidationErrorMessage (ms_errors r))
                 (failedSchemas schemaResults)).

(** Body of the item loop of [executeMultipleSchemaMode]. *)
Definition multiItem (compiledSchemas : list CompiledSchema) (matchMode : string)
    (opts : Options) (itemIndex : nat) (item : Item) : M unit :=
  schemaResults <- for_schemas item compiledSchemas [] ;;
  if isItemValid matchMode schemaResults
  then push_valid (with_pairedItem item itemIndex)
  else push_invalid
         (diagnostic_item opts item itemIndex "validationResults"
            (JArr (map MultiResult_value schemaResults))
            (errorMessages schemaResults)).

Definition executeMultipleSchemaMode (context : IExecuteFunctions)
    (items : list Item) (ajv : Ajv) (opts : Options) : M unit :=
  let matchMode := matchMode context in
  let schemas := default [] (schemaItems context) in
  if (length schemas =? 0)%nat then
    throw (NodeOperationError
             "At least one schema is required in multiple schemas mode")
  else
    compiledSchemas <- lift (compileSchemas ajv 0 schemas) ;;
    for_items (multiItem compiledSchemas matchMode opts) 0 items.

(** [execute]: both arrays start empty and are returned as the two
    outputs. *)
Definition execute (context : IExecuteFunctions) : result (list Item * list Item) :=
  let items := getInputData context in
  let opts := options context in
  let validatorOptions :=
    mkValidatorOptions (not_false (allErrors opts)) (not_false (strictMode opts))
      true (not_false (enableFormats opts)) (not_false (enableCustomErrors opts))
      (not_false (allowUnionTypes opts)) (not_false (coerceTypes opts)) in
  let ajv := createAjvInstance validatorOptions in
  let run_mode :=
    if String.eqb (validationMode context) "single"
    then executeSingleSchemaMode context items ajv opts
    else executeMultipleSchemaMode context items ajv opts in
  match run_mode initState with
  | (Ok _, s) => Ok (validItems s, invalidItems s)
  | (Throw e, _) => Throw e
  end.

(** ** Reading the embedding *)

(** Normalisation of one raw diagnostic as the specification words it:
    the fall-backs apply when the property is absent. *)
Definition spec_normalize (err : ErrorObject) : ValidationError :=
  mkValidationError
    (default "/" (instancePath err))
    (default "Validation failed" (err_message err))
    (err_keyword err)
    (default ∅ (err_params err)).

(** [m] computes [a] from every state and leaves both output arrays as
    they are. *)
Definition stable {A} (m : M A) (a : result A) : Prop :=
  forall s, exists s',
    m s = (a, s')
    /\ validItems s' = validItems s
    /\ invalidItems s' = invalidItems s.

(** Concatenation of what each item contributes, in item order. *)
Fixpoint emitted (f : nat -> Item -> list Item) (itemIndex : nat)
    (items : list Item) : list Item :=
  match items with
  | [] => []
  | item :: rest => f itemIndex item ++ emitted f (S itemIndex) rest
  end.

(** The position references of an output array. *)
Definition positions (out : list Item) : list (option nat) :=
  map pairedItem out.

(** The verdict [validateData] computes, read off the validator. *)
Definition verdict (validator : Validator) (data : value) : result ValidationResult :=
  match run validator data with
  | Returns true _ => Ok (mkValidationResult true [])
  | Returns false (Some raw) => Ok (mkValidationResult false (map transformError raw))
  | Returns false None => Ok (mkValidationResult false [])
  | Throws e => Throw e
  end.

(** The checks of the [try] block of single mode, up to the verdict. *)
Definition singleCheck (context : IExecuteFunctions) (validator : Validator)
    (dataSource : string) (itemIndex : nat) (item : Item) : M ValidationResult :=
  customJsonParam <-
    (if String.eqb dataSource "customJson"
     then lift (customJson context itemIndex)
     else ret JUndefined) ;;
  dataToValidate <- lift (extractDataToValidate item dataSource customJsonParam) ;;
  validateData validator dataToValidate.

(** What one item adds to the valid and to the invalid array. *)
Definition singleOutcome (context : IExecuteFunctions) (validator : Validator)
    (opts : Options) (dataSource : string) (itemIndex : nat) (item : Item)
    : list Item * list Item :=
  match eval (singleCheck context validator dataSource itemIndex item) with
  | Ok result =>
      if isValid result then ([with_pairedItem item itemIndex], [])
      else ([], [diagnostic_item opts item itemIndex "validationErrors"
                   (errors_value (errors result))
                   (formatValidationErrorMessage (errors result))])
  | Throw error => ([], [caught_item opts item itemIndex (exn_message error)])
  end.

Definition multiOutcome (compiledSchemas : list CompiledSchema)
    (matchMode : string) (opts : Options) (itemIndex : nat) (item : Item)
    : list Item * list Item :=
  match eval (for_schemas item compiledSchemas []) with
  | Ok schemaResults =>
      if isItemValid matchMode schemaResults
      then ([with_pairedItem item itemIndex], [])
      else ([], [diagnostic_item opts item itemIndex "validationResults"
                   (JArr (map MultiResult_value schemaResults))
                   (errorMessages schemaResults)])
  | Throw _ => ([], [])
  end.

(** The up-front checks on one schema document succeed: it parses and the
    compiler accepts it. *)
Definition schema_compiles (ajv : Ajv) (schemaJson : value) : bool :=
  match parseSchema schemaJson with
  | Ok schema =>
      match compile ajv schema with
      | Ok _ => true
      | Throw _ => false
      end
  | Throw _ => false
  end.

(** The run-fatal checks of [execute] all succeed. *)
Definition fatal_checks_pass (context : IExecuteFunctions) (ajv : Ajv) : bool :=
  if String.eqb (validationMode context) "single"
  then schema_compiles ajv (jsonSchema context)
  else
    let schemas := default [] (schemaItems context) in
    negb (length schemas =? 0)%nat
    && forallb (fun schemaItem => schema_compiles ajv (si_schema schemaItem)) schemas.

(** The [Ajv] instance [execute] configures from the options. *)
Definition configured_ajv (opts : Options) : Ajv :=
  createAjvInstance
    (mkValidatorOptions (not_false (allErrors opts)) (not_false (strictMode opts))
       true (not_false (enableFormats opts)) (not_false (enableCustomErrors opts))
       (not_false (allowUnionTypes opts)) (not_false (coerceTypes opts))).

(** The position references of [out] are strictly increasing: the items
    appear in the relative order of the input. *)
Definition in_input_order (out : list Item) : Prop :=
  exists idxs, positions out = map Some idxs /\ StronglySorted lt idxs.

(** One iteration pushes exactly one item, which refers to position [i]. *)
Definition pushes_one (out : list Item * list Item) (i : nat) : Prop :=
  exists o, pairedItem o = Some i /\ (out = ([o], []) \/ out = ([], [o])).

(** [parseMultipleSchemas] of lib/schemaParser.ts.  The error thrown for a
    decoded value that is no array is raised inside the [try] block, so the
    [catch] clause wraps it like a decoding error. *)
Definition parseMultipleSchemas (schemasJson : value) : result value :=
  match schemasJson with
  | JStr s =>
      let attempt :=
        rbind (JSON_parse s) (fun parsed =>
        if negb (Array_isArray parsed)
        then Throw (Error "Expected an array of schemas")
        else Ok parsed) in
      match attempt with
      | Ok parsed => Ok parsed
      | Throw error =>
          Throw (Error ("Invalid schemas format: " +:+ exn_message error))
      end
  | _ => Ok schemasJson
  end.

(** Every character of [s] satisfies [p]. *)
Fixpoint all_chars (p : ascii -> bool) (s : string) : bool :=
  match s with
  | EmptyString => true
  | String a rest => p a && all_chars p rest
  end.

Definition not_dot (a : ascii) : bool := negb (Ascii.eqb a (Ascii.ascii_of_nat 46)).

(** The context with other values for the [coerceTypes] and
    [allowUnionTypes] options. *)
Definition with_coercion_options (context : IExecuteFunctions)
    (coerce allowUnion : option bool) : IExecuteFunctions :=
  let opts := options context in
  mkContext (getInputData context) (validationMode context) (jsonSchema context)
    (dataSource context) (customJson context) (schemaItems context)
    (matchMode context)
    (mkOptions (enableFormats opts) (enableCustomErrors opts) (strictMode opts)
       (allErrors opts) coerce allowUnion
       (includeErrorDetails opts) (includeOriginalData opts)).

(** ** Strings and paths *)

Lemma split_on_nonempty c s : split_on c s <> [].
Proof.
  destruct s as [|a s]; simpl; [discriminate|].
  destruct (Ascii.eqb a c); [discriminate|].
  destruct (split_on c s); discriminate.
Qed.

Lemma split_on_app c p q :
  split_on c (p +:+ String c q) = split_on c p ++ split_on c q.
Proof.
  induction p as [|a p IH]; simpl.
  - rewrite Ascii.eqb_refl. reflexivity.
  - destruct (Ascii.eqb a c); [now rewrite IH|].
    rewrite IH. destruct (split_on c p) eqn:E; [|reflexivity].
    now apply split_on_nonempty in E.
Qed.

Lemma parse_part_nonempty p : parse_part p <> [].
Proof. unfold parse_part. destruct (arrayMatch p) as [[? ?]|]; discriminate. Qed.

Lemma parse_path_nonempty path : parse_path path <> [].
Proof.
  unfold parse_path. pose proof (split_on_nonempty (Ascii.ascii_of_nat 46) path) as H.
  destruct (split_on _ path) as [|p ps]; [congruence|]. simpl.
  pose proof (parse_part_nonempty p). destruct (parse_part p); [congruence|discriminate].
Qed.

Lemma parse_path_app p q :
  parse_path (p +:+ "." +:+ q) = parse_path p ++ parse_path q.
Proof.
  unfold parse_path. change ("." +:+ q) with (String (Ascii.ascii_of_nat 46) q).
  rewrite split_on_app. apply flat_map_app.
Qed.

(** Reading a property of a value that is neither [null] nor [undefined]
    does not throw. *)
Lemma js_get_ok v p : is_nullish v = false -> exists w, js_get v p = Ok w.
Proof.
  destruct v; simpl; try discriminate; intros _; eauto.
  - destruct p; eauto. destruct (canonical_index k); eauto.
    destruct (String.eqb k "length"); eauto.
  - destruct p; eauto.
Qed.

Lemma walk_parts_total parts : forall current, exists v, walk_parts parts current = Ok v.
Proof.
  induction parts as [|p rest IH]; intros current; simpl; [eauto|].
  destruct (is_nullish current) eqn:En; [eauto|].
  destruct (js_get_ok current p En) as [w Hw].
  destruct p.
  - destruct (typeof_object current); simpl; [|eauto]. rewrite Hw. simpl. apply IH.
  - destruct (Array_isArray current); simpl; [|eauto]. rewrite Hw. simpl. apply IH.
Qed.

Lemma walk_parts_prefix_nullish parts1 : forall parts2 current v,
  parts2 <> [] ->
  walk_parts parts1 current = Ok v ->
  is_nullish v = true ->
  walk_parts (parts1 ++ parts2) current = Ok JUndefined.
Proof.
  induction parts1 as [|p rest IH]; intros parts2 current v Hne Hw Hv; simpl in *.
  - injection Hw as ->. destruct parts2 as [|q qs]; [congruence|]. simpl. now rewrite Hv.
  - destruct (is_nullish current) eqn:En; [reflexivity|].
    destruct (js_get_ok current p En) as [w Hget].
    destruct p.
    + destruct (typeof_object current); simpl in *; [|reflexivity].
      rewrite Hget in *. simpl in *. eapply IH; eauto.
    + destruct (Array_isArray current); simpl in *; [|reflexivity].
      rewrite Hget in *. simpl in *. eapply IH; eauto.
Qed.

(** C3: path extraction.  On an item whose [json] maps [a] to an object
    mapping [b] to [v], the path [a.b] yields [v] (so [1] on [{a:{b:1}}]);
    on an item whose [json] maps [items] to the array [[x, y]], the path
    [items[1]] yields [y]; extraction never throws, whatever the item and
    the path; and as soon as a prefix of the path resolves to [null] or
    [undefined] and segments remain, the result is [undefined] (NotFound),
    both for parsed paths on any root value and for dotted path strings. *)
Theorem C3_path_extraction :
  (forall item, json item = {[ "a" := JObj {[ "b" := JNum 1 ]} ]} ->
     extractDataFromPath item "a.b" = Ok (JNum 1))
  /\ (forall item x y, json item = {[ "items" := JArr [x; y] ]} ->
        extractDataFromPath item "items[1]" = Ok y)
  /\ (forall item path, exists v, extractDataFromPath item path = Ok v)
  /\ (forall root parts, exists v, walk_parts parts root = Ok v)
  /\ (forall root prefix rest v,
        rest <> [] -> walk_parts prefix root = Ok v -> is_nullish v = true ->
        walk_parts (prefix ++ rest) root = Ok JUndefined)
  /\ (forall item prefix rest v,
        extractDataFromPath item prefix = Ok v -> is_nullish v = true ->
        extractDataFromPath item (prefix +:+ "." +:+ rest) = Ok JUndefined).
Proof.
  repeat split.
  - intros item H. unfold extractDataFromPath. rewrite H. reflexivity.
  - intros item x y H. unfold extractDataFromPath. rewrite H. reflexivity.
  - intros item path. apply walk_parts_total.
  - intros root parts. apply walk_parts_total.
  - intros root prefix rest v. apply walk_parts_prefix_nullish.
  - intros item prefix rest v Hw Hv. unfold extractDataFromPath in *.
    rewrite parse_path_app.
    eapply walk_parts_prefix_nullish; eauto using parse_path_nonempty.
Qed.

(** ** The validator boundary *)

Lemma validateData_run validator data s :
  exists s',
    validateData validator data s = (verdict validator data, s')
    /\ validItems s' = validItems s
    /\ invalidItems s' = invalidItems s
    /\ calls s' = calls s ++ [mkCall (fn_id validator) data].
Proof.
  unfold validateData, verdict, bind, invoke, transformValidationErrors, read_errors, ret.
  destruct (run validator data) as [[|] errs|e]; simpl.
  - eexists; repeat split; reflexivity.
  - rewrite lookup_insert_eq. simpl. destruct errs; eexists; repeat split; reflexivity.
  - eexists; repeat split; reflexivity.
Qed.

Lemma validateData_stable validator data :
  stable (validateData validator data) (verdict validator data).
Proof.
  intros s. destruct (validateData_run validator data s) as (s' & H & Hv & Hi & _).
  eauto.
Qed.

(** C6: when the validator returns (rather than throws) and leaves at least
    one raw diagnostic whenever it returns false, [validateData] returns a
    result carrying the validator's boolean, whose error list is empty
    exactly when [isValid] is true. *)
Theorem C6_errors_empty_iff_valid validator data b errs s :
  run validator data = Returns b errs ->
  (b = false -> exists e l, errs = Some (e :: l)) ->
  exists r s',
    validateData validator data s = (Ok r, s')
    /\ isValid r = b
    /\ (errors r = [] <-> isValid r = true).
Proof.
  intros Hrun Hdiag.
  destruct (validateData_run validator data s) as (s' & H & _).
  unfold verdict in H. rewrite Hrun in H. destruct b.
  - eexists _, s'. split; [exact H|]. simpl. repeat split.
  - destruct (Hdiag eq_refl) as (e & l & ->).
    eexists _, s'. split; [exact H|]. simpl. split; [reflexivity|].
    split; discriminate.
Qed.

(** C7 (amended): a raw diagnostic is normalised to [field] = its instance
    pointer, or [/] when that is absent or the empty string; [message] = its
    message, or [Validation failed] when that is absent or empty; [keyword]
    = its keyword; [params] = its parameter mapping, or the empty mapping
    when absent.  Reading the diagnostics right after a failing invocation
    yields the normalised list in order.  Formatting renders
    [field: message] per error joined by a comma and a space, the empty
    list renders the empty string, and the two-error example of the
    specification renders as stated. *)
Theorem C7_normalize_and_format :
  (forall err,
      field (transformError err)
      = match instancePath err with
        | Some p => if String.eqb p EmptyString then "/" else p
        | None => "/"
        end
      /\ message (transformError err)
         = match err_message err with
           | Some m => if String.eqb m EmptyString then "Validation failed" else m
           | None => "Validation failed"
           end
      /\ keyword (transformError err) = err_keyword err
      /\ params (transformError err) = default ∅ (err_params err))
  /\ (forall validator data b raw s,
        run validator data = Returns b (Some raw) ->
        exists s',
          (invoke validator data ;;; transformValidationErrors validator) s
          = (Ok (map transformError raw), s'))
  /\ formatValidationErrorMessage [] = EmptyString
  /\ (forall e, formatValidationErrorMessage [e] = field e +:+ ": " +:+ message e)
  /\ (forall e e' es,
        formatValidationErrorMessage (e :: e' :: es)
        = (field e +:+ ": " +:+ message e) +:+ ", "
          +:+ formatValidationErrorMessage (e' :: es))
  /\ (forall k1 p1 k2 p2,
        formatValidationErrorMessage
          [mkValidationError "/name" "must be string" k1 p1;
           mkValidationError "/age" "must be number" k2 p2]
        = "/name: must be string, /age: must be number").
Proof.
  split; [|split; [|repeat split; intros; reflexivity]].
  - intros err. repeat split.
  - intros validator data b raw s Hrun.
    unfold transformValidationErrors, bind, invoke, read_errors, ret.
    rewrite Hrun. simpl. rewrite lookup_insert_eq. simpl. eauto.
Qed.

(** ** The schema loop of multiple mode *)

Lemma stable_eval {A} (m : M A) a : stable m a -> eval m = a.
Proof. intros H. destruct (H initState) as (s' & E & _). unfold eval. now rewrite E. Qed.

Lemma stable_ret {A} (a : A) : stable (ret a) (Ok a).
Proof. intros s. exists s. repeat split. Qed.

Lemma schemaStep_run item c :
  exists r, forall acc, stable (schemaStep item c acc) (Ok (acc ++ [r])).
Proof.
  assert (Hv : forall data, exists r, forall acc,
             stable (try_catch
                       (result <- validateData (validator c) data ;;
                        ret (acc ++ [mkMultiResult (name c) (isValid result) (errors result)]))
                       (fun error => ret (acc ++ [caught_result c error])))
                    (Ok (acc ++ [r]))).
  { intros data. destruct (verdict (validator c) data) as [res|e] eqn:Ev.
    - eexists. intros acc s.
      destruct (validateData_run (validator c) data s) as (s' & E & Hv & Hi & _).
      unfold try_catch, bind, ret. rewrite E, Ev. eauto.
    - eexists. intros acc s.
      destruct (validateData_run (validator c) data s) as (s' & E & Hv & Hi & _).
      unfold try_catch, bind, ret. rewrite E, Ev. eauto. }
  unfold schemaStep.
  destruct (String.eqb (dataPath c) EmptyString); simpl; [apply Hv|].
  destruct (extractDataFromPath item (dataPath c)) as [v|e] eqn:Ex.
  - destruct (is_undefined v) eqn:Eu.
    + eexists. intros acc s. unfold try_catch, bind, lift, ret. rewrite Eu. eauto.
    + destruct (Hv v) as [r Hr]. exists r. intros acc s.
      destruct (Hr acc s) as (s' & E & Hs). exists s'. split; [|exact Hs].
      rewrite <- E. unfold try_catch, bind, lift, ret. now rewrite Eu.
  - eexists. intros acc s. unfold try_catch, bind, lift, ret. eauto.
Qed.

Lemma for_schemas_run item cs :
  exists results,
    length results = length cs
    /\ forall acc, stable (for_schemas item cs acc) (Ok (acc ++ results)).
Proof.
  induction cs as [|c cs (results & Hlen & IH)]; simpl.
  - exists []. split; [reflexivity|]. intros acc. rewrite app_nil_r. apply stable_ret.
  - destruct (schemaStep_run item c) as [r Hr].
    exists (r :: results). split; [simpl; congruence|].
    intros acc s. destruct (Hr acc s) as (s1 & E1 & Hv1 & Hi1).
    destruct (IH (acc ++ [r]) s1) as (s2 & E2 & Hv2 & Hi2).
    exists s2. unfold bind. rewrite E1, E2, <- app_assoc. simpl.
    repeat split; congruence.
Qed.

(** ** The item loops *)

Lemma for_items_run body (out : nat -> Item -> list Item * list Item) :
  (forall i item s, exists s',
      body i item s = (Ok tt, s')
      /\ validItems s' = validItems s ++ fst (out i item)
      /\ invalidItems s' = invalidItems s ++ snd (out i item)) ->
  forall items start s, exists s',
    for_items body start items s = (Ok tt, s')
    /\ validItems s' = validItems s ++ emitted (fun i it => fst (out i it)) start items
    /\ invalidItems s' = invalidItems s ++ emitted (fun i it => snd (out i it)) start items.
Proof.
  intros Hbody items. induction items as [|item rest IH]; intros start s; simpl.
  - exists s. rewrite !app_nil_r. repeat split.
  - destruct (Hbody start item s) as (s1 & E1 & Hv1 & Hi1).
    destruct (IH (S start) s1) as (s2 & E2 & Hv2 & Hi2).
    exists s2. unfold bind. rewrite E1, E2, Hv2, Hi2, Hv1, Hi1, <- !app_assoc.
    repeat split.
Qed.

Lemma multiItem_run compiled mode opts i item s :
  exists s',
    multiItem compiled mode opts i item s = (Ok tt, s')
    /\ validItems s' = validItems s ++ fst (multiOutcome compiled mode opts i item)
    /\ invalidItems s' = invalidItems s ++ snd (multiOutcome compiled mode opts i item).
Proof.
  destruct (for_schemas_run item compiled) as (results & _ & Hst).
  specialize (Hst []). simpl in Hst.
  unfold multiOutcome. rewrite (stable_eval _ _ Hst).
  destruct (Hst s) as (s1 & E1 & Hv1 & Hi1).
  unfold multiItem, bind. rewrite E1.
  destruct (isItemValid mode results); simpl.
  - eexists. split; [reflexivity|]. simpl. rewrite Hv1, Hi1, app_nil_r. split; reflexivity.
  - eexists. split; [reflexivity|]. simpl. rewrite Hv1, Hi1, app_nil_r. split; reflexivity.
Qed.

Lemma singleCheck_stable context validator ds i item :
  exists a, stable (singleCheck context validator ds i item) a.
Proof.
  unfold singleCheck.
  assert (Hd : forall param, exists a,
             stable (dataToValidate <- lift (extractDataToValidate item ds param) ;;
                     validateData validator dataToValidate) a).
  { intros param. destruct (extractDataToValidate item ds param) as [d|e].
    - eexists. intros s. destruct (validateData_stable validator d s) as (s' & E & Hs).
      exists s'. unfold bind, lift. rewrite E. split; [reflexivity|exact Hs].
    - eexists. intros s. exists s. unfold bind, lift. repeat split. }
  destruct (String.eqb ds "customJson").
  - destruct (customJson context i) as [param|e].
    + destruct (Hd param) as [a Ha]. exists a. intros s.
      destruct (Ha s) as (s' & E & Hs). exists s'. split; [|exact Hs].
      rewrite <- E. reflexivity.
    + eexists. intros s. exists s. unfold bind, lift. repeat split.
  - destruct (Hd JUndefined) as [a Ha]. exists a. intros s.
    destruct (Ha s) as (s' & E & Hs). exists s'. split; [|exact Hs].
    rewrite <- E. reflexivity.
Qed.

(** The body of single mode is its checks followed by one push. *)
Lemma singleItem_unfold context validator opts ds i item s :
  singleItem context validator opts ds i item s
  = match singleCheck context validator ds i item s with
    | (Ok result, s') =>
        if isValid result then push_valid (with_pairedItem item i) s'
        else push_invalid (diagnostic_item opts item i "validationErrors"
                             (errors_value (errors result))
                             (formatValidationErrorMessage (errors result))) s'
    | (Throw error, s') =>
        push_invalid (caught_item opts item i (exn_message error)) s'
    end.
Proof.
  unfold singleItem, singleCheck, try_catch, bind, lift, ret.
  destruct (String.eqb ds "customJson").
  - destruct (customJson context i) as [param|e]; [|reflexivity].
    destruct (extractDataToValidate item ds param) as [d|e]; [|reflexivity].
    destruct (validateData validator d s) as [[r|e] s']; [|reflexivity].
    destruct (isValid r); reflexivity.
  - destruct (extractDataToValidate item ds JUndefined) as [d|e]; [|reflexivity].
    destruct (validateData validator d s) as [[r|e] s']; [|reflexivity].
    destruct (isValid r); reflexivity.
Qed.

Lemma singleItem_run context validator opts ds i item s :
  exists s',
    singleItem context validator opts ds i item s = (Ok tt, s')
    /\ validItems s' = validItems s ++ fst (singleOutcome context validator opts ds i item)
    /\ invalidItems s' = invalidItems s ++ snd (singleOutcome context validator opts ds i item).
Proof.
  destruct (singleCheck_stable context validator ds i item) as [a Ha].
  unfold singleOutcome. rewrite (stable_eval _ _ Ha).
  rewrite singleItem_unfold.
  destruct (Ha s) as (s1 & E1 & Hv1 & Hi1). rewrite E1.
  destruct a as [r|e]; [destruct (isValid r)|]; simpl;
    (eexists; split; [reflexivity|]; simpl; rewrite Hv1, Hi1, app_nil_r; split; reflexivity).
Qed.

(** ** What the loops emit *)

Lemma in_emitted f items : forall start o,
  In o (emitted f start items)
  <-> exists k item, items !! k = Some item /\ In o (f (start + k) item).
Proof.
  induction items as [|item rest IH]; intros start o; simpl.
  - split; [intros []|]. intros (k & it & H & _). destruct k; discriminate.
  - rewrite in_app_iff, IH. split.
    + intros [H|(k & it & Hk & H)].
      * exists 0, item. rewrite Nat.add_0_r. auto.
      * exists (S k), it. rewrite Nat.add_succ_r. auto.
    + intros (k & it & Hk & H). destruct k as [|k]; simpl in Hk.
      * injection Hk as <-. rewrite Nat.add_0_r in H. auto.
      * right. exists k, it. rewrite Nat.add_succ_r in H. auto.
Qed.

Lemma emitted_lengths (out : nat -> Item -> list Item * list Item) :
  (forall i item, pushes_one (out i item) i) ->
  forall items start,
    length (emitted (fun i it => fst (out i it)) start items)
    + length (emitted (fun i it => snd (out i it)) start items)
    = length items.
Proof.
  intros H items. induction items as [|item rest IH]; intros start; simpl; [reflexivity|].
  rewrite !length_app. specialize (IH (S start)).
  destruct (H start item) as (o & _ & [-> | ->]); simpl; lia.
Qed.

Lemma emitted_permutation (out : nat -> Item -> list Item * list Item) :
  (forall i item, pushes_one (out i item) i) ->
  forall items start,
    Permutation
      (positions (emitted (fun i it => fst (out i it)) start items)
       ++ positions (emitted (fun i it => snd (out i it)) start items))
      (map Some (seq start (length items))).
Proof.
  intros H items. induction items as [|item rest IH]; intros start; simpl; [constructor|].
  specialize (IH (S start)). unfold positions in *. rewrite !map_app.
  destruct (H start item) as (o & Ho & [-> | ->]); simpl; rewrite Ho.
  - now constructor.
  - symmetry. apply Permutation_cons_app. symmetry. exact IH.
Qed.

Lemma emitted_sorted f :
  (forall i item, f i item = [] \/ exists o, f i item = [o] /\ pairedItem o = Some i) ->
  forall items start, exists idxs,
    positions (emitted f start items) = map Some idxs
    /\ StronglySorted lt idxs
    /\ Forall (le start) idxs.
Proof.
  intros H items. induction items as [|item rest IH]; intros start; simpl.
  - exists []. repeat constructor.
  - destruct (IH (S start)) as (idxs & Hp & Hs & Hle).
    assert (Hlt : Forall (lt start) idxs).
    { eapply List.Forall_impl; [|exact Hle]. simpl. intros; lia. }
    destruct (H start item) as [-> | (o & -> & Ho)]; simpl.
    + exists idxs. repeat split; auto.
      eapply List.Forall_impl; [|exact Hlt]. simpl. intros; lia.
    + exists (start :: idxs). unfold positions in *. simpl. rewrite Ho, Hp.
      repeat split; [constructor; auto|].
      constructor; [lia|]. eapply List.Forall_impl; [|exact Hlt]. simpl. intros; lia.
Qed.

Lemma pushes_one_fst out i :
  pushes_one out i -> fst out = [] \/ exists o, fst out = [o] /\ pairedItem o = Some i.
Proof. intros (o & Ho & [-> | ->]); simpl; eauto. Qed.

Lemma pushes_one_snd out i :
  pushes_one out i -> snd out = [] \/ exists o, snd out = [o] /\ pairedItem o = Some i.
Proof. intros (o & Ho & [-> | ->]); simpl; eauto. Qed.

Lemma emitted_in_order (out : nat -> Item -> list Item * list Item) items start :
  (forall i item, pushes_one (out i item) i) ->
  in_input_order (emitted (fun i it => fst (out i it)) start items)
  /\ in_input_order (emitted (fun i it => snd (out i it)) start items).
Proof.
  intros H. split.
  - destruct (emitted_sorted (fun i it => fst (out i it))
                (fun i it => pushes_one_fst _ _ (H i it)) items start)
      as (idxs & Hp & Hs & _).
    exists idxs. auto.
  - destruct (emitted_sorted (fun i it => snd (out i it))
                (fun i it => pushes_one_snd _ _ (H i it)) items start)
      as (idxs & Hp & Hs & _).
    exists idxs. auto.
Qed.

Lemma multiOutcome_eq compiled mode opts i item :
  exists results,
    length results = length compiled
    /\ eval (for_schemas item compiled []) = Ok results
    /\ multiOutcome compiled mode opts i item
       = if isItemValid mode results
         then ([with_pairedItem item i], [])
         else ([], [diagnostic_item opts item i "validationResults"
                      (JArr (map MultiResult_value results))
                      (errorMessages results)]).
Proof.
  destruct (for_schemas_run item compiled) as (results & Hlen & Hst).
  specialize (Hst []). simpl in Hst. apply stable_eval in Hst.
  exists results. unfold multiOutcome. rewrite Hst. auto.
Qed.

Lemma multiOutcome_pushes_one compiled mode opts i item :
  pushes_one (multiOutcome compiled mode opts i item) i.
Proof.
  destruct (multiOutcome_eq compiled mode opts i item) as (results & _ & _ & ->).
  destruct (isItemValid mode results); eexists; split; eauto; reflexivity.
Qed.

Lemma singleOutcome_pushes_one context validator opts ds i item :
  pushes_one (singleOutcome context validator opts ds i item) i.
Proof.
  unfold singleOutcome.
  destruct (eval (singleCheck context validator ds i item)) as [r|e];
    [destruct (isValid r)|]; eexists; split; eauto; reflexivity.
Qed.

(** ** The two strategies, run on a batch *)

Lemma executeMultipleSchemaMode_run context items ajv opts compiled :
  default [] (schemaItems context) <> [] ->
  compileSchemas ajv 0 (default [] (schemaItems context)) = Ok compiled ->
  exists s',
    executeMultipleSchemaMode context items ajv opts initState = (Ok tt, s')
    /\ validItems s'
       = emitted (fun i it => fst (multiOutcome compiled (matchMode context) opts i it))
           0 items
    /\ invalidItems s'
       = emitted (fun i it => snd (multiOutcome compiled (matchMode context) opts i it))
           0 items.
Proof.
  intros Hne Hc. unfold executeMultipleSchemaMode.
  destruct (default [] (schemaItems context)) as [|si sis] eqn:Es; [congruence|].
  cbn [length Nat.eqb]. unfold bind, lift. rewrite Hc.
  exact (for_items_run _ (multiOutcome compiled (matchMode context) opts)
           (multiItem_run compiled (matchMode context) opts) items 0 initState).
Qed.

Lemma executeSingleSchemaMode_run context items ajv opts schema v :
  parseSchema (jsonSchema context) = Ok schema ->
  compile ajv schema = Ok v ->
  exists s',
    executeSingleSchemaMode context items ajv opts initState = (Ok tt, s')
    /\ validItems s'
       = emitted (fun i it => fst (singleOutcome context v opts (dataSource context) i it))
           0 items
    /\ invalidItems s'
       = emitted (fun i it => snd (singleOutcome context v opts (dataSource context) i it))
           0 items.
Proof.
  intros Hp Hc. unfold executeSingleSchemaMode, try_catch, bind, lift, ret, throw,
    isValidJsonSchema, createValidator.
  rewrite Hp. simpl. rewrite Hc. simpl. rewrite ?Hc.
  exact (for_items_run _ (singleOutcome context v opts (dataSource context))
           (singleItem_run context v opts (dataSource context)) items 0 initState).
Qed.

(** An unchanged copy of item [i] is exactly what iteration [i] may add to
    the valid output. *)
Lemma in_valid_emitted (out : nat -> Item -> list Item * list Item) items i item :
  (forall j it o, In o (fst (out j it)) -> o = with_pairedItem it j) ->
  items !! i = Some item ->
  In (with_pairedItem item i) (emitted (fun j it => fst (out j it)) 0 items)
  <-> In (with_pairedItem item i) (fst (out i item)).
Proof.
  intros Hout Hi. rewrite in_emitted. simpl. split.
  - intros (k & it & Hk & Hin). pose proof (Hout _ _ _ Hin) as E.
    assert (k = i) by (injection E; congruence). subst k.
    rewrite Hi in Hk. now injection Hk as <-.
  - intros H. eauto.
Qed.

Lemma multiOutcome_valid compiled mode opts j it o :
  In o (fst (multiOutcome compiled mode opts j it)) -> o = with_pairedItem it j.
Proof.
  destruct (multiOutcome_eq compiled mode opts j it) as (results & _ & _ & ->).
  destruct (isItemValid mode results); simpl; [intros [<-|[]]; reflexivity|intros []].
Qed.

Lemma singleOutcome_valid context v opts ds j it o :
  In o (fst (singleOutcome context v opts ds j it)) -> o = with_pairedItem it j.
Proof.
  unfold singleOutcome. destruct (eval _) as [r|e]; [destruct (isValid r)|]; simpl;
    [intros [<-|[]]; reflexivity | intros [] | intros []].
Qed.

(** C1: multiple mode on a non-empty list of schemas that compile.  The run
    completes, and for every record, with [results] its per-schema results
    (one per compiled schema), the unchanged record with its position is on
    the valid output iff every result is valid when [matchMode] is [all],
    and iff at least one result is valid when [matchMode] is [any]. *)
Theorem C1_match_mode context items ajv opts compiled :
  default [] (schemaItems context) <> [] ->
  compileSchemas ajv 0 (default [] (schemaItems context)) = Ok compiled ->
  exists s',
    executeMultipleSchemaMode context items ajv opts initState = (Ok tt, s')
    /\ forall i item, items !! i = Some item ->
       exists results,
         eval (for_schemas item compiled []) = Ok results
         /\ length results = length compiled
         /\ (matchMode context = "all" ->
             (In (with_pairedItem item i) (validItems s')
              <-> forall r, In r results -> ms_isValid r = true))
         /\ (matchMode context = "any" ->
             (In (with_pairedItem item i) (validItems s')
              <-> exists r, In r results /\ ms_isValid r = true)).
Proof.
  intros Hne Hc.
  destruct (executeMultipleSchemaMode_run context items ajv opts compiled Hne Hc)
    as (s' & Hrun & Hv & _).
  exists s'. split; [exact Hrun|]. intros i item Hi.
  destruct (multiOutcome_eq compiled (matchMode context) opts i item)
    as (results & Hlen & Hev & Hout).
  exists results. split; [exact Hev|]. split; [exact Hlen|].
  rewrite Hv.
  rewrite (in_valid_emitted (multiOutcome compiled (matchMode context) opts) items i item
             (multiOutcome_valid compiled (matchMode context) opts) Hi).
  rewrite Hout. unfold isItemValid.
  split; intros ->; simpl.
  - rewrite <- forallb_forall.
    destruct (forallb ms_isValid results); simpl;
      (split; [try reflexivity; intros []|try discriminate; intros _; left; reflexivity]).
  - rewrite <- existsb_exists.
    destruct (existsb ms_isValid results); simpl;
      (split; [try reflexivity; intros []|try discriminate; intros _; left; reflexivity]).
Qed.

(** C2 (amended): in multiple mode, every item on the invalid output is the
    diagnostic record of one input record that failed the match.  Its
    message is the failing results only, each formatted as
    [[schemaName] formatted errors], joined by a semicolon and a space.  Its
    [validationResults] payload, unless details are switched off (then it
    is [undefined]), lists the results of all schemas in configured order,
    passing ones included. *)
Theorem C2_invalid_diagnostic context items ajv opts compiled :
  default [] (schemaItems context) <> [] ->
  compileSchemas ajv 0 (default [] (schemaItems context)) = Ok compiled ->
  exists s',
    executeMultipleSchemaMode context items ajv opts initState = (Ok tt, s')
    /\ forall o, In o (invalidItems s') ->
       exists i item results,
         items !! i = Some item
         /\ pairedItem o = Some i
         /\ eval (for_schemas item compiled []) = Ok results
         /\ length results = length compiled
         /\ isItemValid (matchMode context) results = false
         /\ json o !! "validationMessage"
            = Some (JStr (join "; "
                 (map (fun r => "[" +:+ schemaName r +:+ "] "
                                +:+ formatValidationErrorMessage (ms_errors r))
                      (List.filter (fun r => negb (ms_isValid r)) results))))
         /\ json o !! "validationResults"
            = Some (if not_false (includeErrorDetails opts)
                    then JArr (map MultiResult_value results)
                    else JUndefined).
Proof.
  intros Hne Hc.
  destruct (executeMultipleSchemaMode_run context items ajv opts compiled Hne Hc)
    as (s' & Hrun & _ & Hi).
  exists s'. split; [exact Hrun|]. intros o Ho.
  rewrite Hi in Ho. apply in_emitted in Ho. destruct Ho as (k & item & Hk & Hin).
  simpl in Hin.
  destruct (multiOutcome_eq compiled (matchMode context) opts k item)
    as (results & Hlen & Hev & Hout).
  rewrite Hout in Hin.
  destruct (isItemValid (matchMode context) results) eqn:Ev; simpl in Hin; [destruct Hin|].
  destruct Hin as [<-|[]].
  exists k, item, results.
  split; [exact Hk|]. split; [reflexivity|]. split; [exact Hev|].
  split; [exact Hlen|]. split; [exact Ev|].
  unfold diagnostic_item, diagnostic_json. simpl. split.
  - now rewrite lookup_insert_eq.
  - rewrite lookup_insert_ne by discriminate. now rewrite lookup_insert_eq.
Qed.

(** C4: in the schema loop, when the data path of a compiled schema is
    non-empty and path extraction yields [undefined], the result appended
    for that schema is the synthetic one (the schema's name, not valid, one
    error with the path as field, the not-found message, keyword [path] and
    the path as parameter), and the state is returned as it was: nothing is
    logged, so the validator is not invoked. *)
Theorem C4_path_not_found item c acc s :
  dataPath c <> EmptyString ->
  extractDataFromPath item (dataPath c) = Ok JUndefined ->
  schemaStep item c acc s
  = (Ok (acc ++ [mkMultiResult (name c) false
                   [mkValidationError
                      (dataPath c)
                      ("Path " +:+ dquote +:+ dataPath c +:+ dquote
                       +:+ " not found in item")
                      "path"
                      {[ "path" := JStr (dataPath c) ]}]]), s)
  /\ calls (snd (schemaStep item c acc s)) = calls s.
Proof.
  intros Hne Hx. unfold schemaStep, try_catch, bind, lift, ret.
  destruct (String.eqb (dataPath c) EmptyString) eqn:E.
  - apply String.eqb_eq in E. congruence.
  - simpl. rewrite Hx. simpl. split; reflexivity.
Qed.

Lemma pushes_one_positions out i o :
  pushes_one out i -> In o (fst out) \/ In o (snd out) -> pairedItem o = Some i.
Proof.
  intros (o' & Ho & [-> | ->]); simpl; intros [H|H];
    try (destruct H as [<-|[]]; exact Ho); destruct H.
Qed.

(** An output that refers to position [i] was pushed by iteration [i]. *)
Lemma in_emitted_position f items i item o :
  (forall j it o', In o' (f j it) -> pairedItem o' = Some j) ->
  items !! i = Some item ->
  In o (emitted f 0 items) -> pairedItem o = Some i -> In o (f i item).
Proof.
  intros Hf Hi Hin Hp. apply in_emitted in Hin. destruct Hin as (k & it & Hk & Hin).
  simpl in Hin. pose proof (Hf _ _ _ Hin) as Hk'.
  assert (k = i) by congruence. subst k. rewrite Hi in Hk. now injection Hk as <-.
Qed.

Lemma with_pairedItem_fields item i :
  json (with_pairedItem item i) = json item
  /\ binary (with_pairedItem item i) = binary item
  /\ extra (with_pairedItem item i) = extra item
  /\ pairedItem (with_pairedItem item i) = Some i.
Proof. repeat split. Qed.

Lemma compileSchemas_ok ajv schemas : forall index,
  forallb (fun schemaItem => schema_compiles ajv (si_schema schemaItem)) schemas = true ->
  exists compiled, compileSchemas ajv index schemas = Ok compiled.
Proof.
  induction schemas as [|si rest IH]; intros index H; simpl in *; [eauto|].
  apply andb_prop in H. destruct H as [Hsi Hrest].
  destruct (IH (S index) Hrest) as [cs Hcs]. rewrite Hcs.
  unfold compileSchemaItem, schema_compiles, isValidJsonSchema, createValidator in *.
  destruct (parseSchema (si_schema si)) as [schema|]; [|discriminate]. simpl.
  destruct (compile ajv schema) as [v|]; [|discriminate]. simpl. eauto.
Qed.

(** The verdict on a record whose custom value does not decode. *)
Lemma singleOutcome_undecodable context v opts i item text e :
  customJson context i = Ok (JStr text) ->
  JSON_parse text = Throw e ->
  singleOutcome context v opts "customJson" i item
  = ([], [caught_item opts item i
            (if String.eqb text EmptyString then custom_json_required
             else "Invalid custom JSON: " +:+ exn_message e)]).
Proof.
  intros Hc Hp. unfold singleOutcome, eval, singleCheck, bind, lift. simpl.
  rewrite Hc. unfold extractDataToValidate. simpl.
  destruct (String.eqb text EmptyString); simpl; [reflexivity|]. now rewrite Hp.
Qed.

Lemma singleOutcome_falsy context v opts i item param :
  customJson context i = Ok param ->
  js_falsy param = true ->
  singleOutcome context v opts "customJson" i item
  = ([], [caught_item opts item i custom_json_required]).
Proof.
  intros Hc Hf. unfold singleOutcome, eval, singleCheck, bind, lift. simpl.
  rewrite Hc. unfold extractDataToValidate. simpl. now rewrite Hf.
Qed.

(** What the run of single mode says about a record whose iteration pushes
    the given caught item. *)
Lemma single_record_caught context items ajv opts schema v i item msg :
  parseSchema (jsonSchema context) = Ok schema ->
  compile ajv schema = Ok v ->
  items !! i = Some item ->
  singleOutcome context v opts (dataSource context) i item
  = ([], [caught_item opts item i msg]) ->
  exists s',
    executeSingleSchemaMode context items ajv opts initState = (Ok tt, s')
    /\ In (caught_item opts item i msg) (invalidItems s')
    /\ (forall o, In o (validItems s') -> pairedItem o <> Some i)
    /\ (forall o, In o (invalidItems s') -> pairedItem o = Some i ->
          o = caught_item opts item i msg)
    /\ validItems s'
       = emitted (fun j it => fst (singleOutcome context v opts (dataSource context) j it))
           0 items
    /\ invalidItems s'
       = emitted (fun j it => snd (singleOutcome context v opts (dataSource context) j it))
           0 items.
Proof.
  intros Hp Hc Hi Hout.
  destruct (executeSingleSchemaMode_run context items ajv opts schema v Hp Hc)
    as (s' & Hrun & Hv & Hinv).
  pose proof (singleOutcome_pushes_one context v opts (dataSource context)) as Hone.
  exists s'. split; [exact Hrun|]. repeat split; auto.
  - rewrite Hinv. apply in_emitted. exists i, item. simpl. rewrite Hout. simpl. auto.
  - intros o Ho Hpos. rewrite Hv in Ho.
    eapply in_emitted_position in Ho; eauto.
    + rewrite Hout in Ho. exact Ho.
    + intros j it o' Hin. eapply pushes_one_positions; eauto.
  - intros o Ho Hpos. rewrite Hinv in Ho.
    eapply in_emitted_position in Ho; eauto.
    + rewrite Hout in Ho. simpl in Ho. destruct Ho as [<-|[]]. reflexivity.
    + intros j it o' Hin. eapply pushes_one_positions; eauto.
Qed.

(** C5: single mode, custom-value source.  When the custom value of record
    [i] is a string that [JSON.parse] rejects, the run still completes;
    the invalid output holds, for position [i], exactly one item, whose
    [validationErrors] is a one-element list with keyword [parse] (and the
    decode message, or the missing-value message for the empty string);
    nothing for position [i] reaches the valid output; and both outputs are
    the concatenation, in input order, of what each record contributes on
    its own, so the other records are processed as they would be without
    the failure. *)
Theorem C5_custom_parse_failure context items ajv opts schema v i item text e :
  parseSchema (jsonSchema context) = Ok schema ->
  compile ajv schema = Ok v ->
  dataSource context = "customJson" ->
  items !! i = Some item ->
  customJson context i = Ok (JStr text) ->
  JSON_parse text = Throw e ->
  let msg := if String.eqb text EmptyString then custom_json_required
             else "Invalid custom JSON: " +:+ exn_message e in
  let o := caught_item opts item i msg in
  exists s',
    executeSingleSchemaMode context items ajv opts initState = (Ok tt, s')
    /\ In o (invalidItems s')
    /\ pairedItem o = Some i
    /\ json o !! "validationErrors"
       = Some (errors_value [mkValidationError "/" msg "parse" ∅])
    /\ (forall o', In o' (validItems s') -> pairedItem o' <> Some i)
    /\ (forall o', In o' (invalidItems s') -> pairedItem o' = Some i -> o' = o)
    /\ validItems s'
       = emitted (fun j it => fst (singleOutcome context v opts "customJson" j it)) 0 items
    /\ invalidItems s'
       = emitted (fun j it => snd (singleOutcome context v opts "customJson" j it)) 0 items.
Proof.
  intros Hp Hc Hds Hi Hcustom Hparse msg o.
  pose proof (singleOutcome_undecodable context v opts i item text e Hcustom Hparse) as Hout.
  rewrite <- Hds in Hout |- *.
  destruct (single_record_caught context items ajv opts schema v i item msg Hp Hc Hi Hout)
    as (s' & Hrun & Hin & Hv & Hinv & Ev & Einv).
  exists s'. repeat split; auto.
  unfold o, caught_item, diagnostic_json. simpl.
  rewrite lookup_insert_ne by discriminate. now rewrite lookup_insert_eq.
Qed.

(** C10: with the custom-value source, a falsy custom value (the empty
    string, [undefined], [null], [false], [0]) makes
    [extractDataToValidate] throw the missing-value error without decoding
    anything; single mode catches it for that record and routes the record
    to the invalid output with one error of keyword [parse] carrying that
    message; an empty string and an absent value give the same record. *)
Theorem C10_empty_custom_value :
  (forall item param,
      js_falsy param = true ->
      extractDataToValidate item "customJson" param
      = Throw (Error ("Custom JSON is required when Data Source is "
                      +:+ dquote +:+ "Custom JSON" +:+ dquote)))
  /\ (forall context items ajv opts schema v i item param,
        parseSchema (jsonSchema context) = Ok schema ->
        compile ajv schema = Ok v ->
        dataSource context = "customJson" ->
        items !! i = Some item ->
        customJson context i = Ok param ->
        js_falsy param = true ->
        let o := caught_item opts item i custom_json_required in
        exists s',
          executeSingleSchemaMode context items ajv opts initState = (Ok tt, s')
          /\ In o (invalidItems s')
          /\ pairedItem o = Some i
          /\ json o !! "validationErrors"
             = Some (errors_value
                       [mkValidationError "/" custom_json_required "parse" ∅])
          /\ json o !! "validationMessage" = Some (JStr custom_json_required)
          /\ (forall o', In o' (validItems s') -> pairedItem o' <> Some i)
          /\ (forall o', In o' (invalidItems s') -> pairedItem o' = Some i -> o' = o))
  /\ (forall context context' v opts i item,
        customJson context i = Ok (JStr EmptyString) ->
        customJson context' i = Ok JUndefined ->
        singleOutcome context v opts "customJson" i item
        = singleOutcome context' v opts "customJson" i item).
Proof.
  split; [|split].
  - intros item param Hf. unfold extractDataToValidate. simpl. now rewrite Hf.
  - intros context items ajv opts schema v i item param Hp Hc Hds Hi Hcustom Hf o.
    pose proof (singleOutcome_falsy context v opts i item param Hcustom Hf) as Hout.
    rewrite <- Hds in Hout.
    destruct (single_record_caught context items ajv opts schema v i item _ Hp Hc Hi Hout)
      as (s' & Hrun & Hin & Hv & Hinv & _).
    exists s'. repeat split; auto.
    + unfold o, caught_item, diagnostic_json. simpl.
      rewrite lookup_insert_ne by discriminate. now rewrite lookup_insert_eq.
    + unfold o, caught_item, diagnostic_json. simpl. now rewrite lookup_insert_eq.
  - intros context context' v opts i item H H'.
    rewrite (singleOutcome_falsy context v opts i item _ H eq_refl).
    now rewrite (singleOutcome_falsy context' v opts i item _ H' eq_refl).
Qed.

(** C8: in both modes the run completes, every record that validates
    successfully is on the valid output as a copy whose [json], [binary] and
    other fields are those of the input record and whose [pairedItem] is the
    record's position; the valid output holds nothing but such copies; and
    the position references of the valid output and of the invalid output
    are strictly increasing, so both list the records in input order. *)
Theorem C8_valid_unchanged_in_order :
  (forall context items ajv opts schema v,
      parseSchema (jsonSchema context) = Ok schema ->
      compile ajv schema = Ok v ->
      exists s',
        executeSingleSchemaMode context items ajv opts initState = (Ok tt, s')
        /\ (forall i item r,
              items !! i = Some item ->
              eval (singleCheck context v (dataSource context) i item) = Ok r ->
              isValid r = true ->
              In (with_pairedItem item i) (validItems s'))
        /\ (forall o, In o (validItems s') ->
              exists i item, items !! i = Some item /\ o = with_pairedItem item i)
        /\ in_input_order (validItems s')
        /\ in_input_order (invalidItems s'))
  /\ (forall context items ajv opts compiled,
        default [] (schemaItems context) <> [] ->
        compileSchemas ajv 0 (default [] (schemaItems context)) = Ok compiled ->
        exists s',
          executeMultipleSchemaMode context items ajv opts initState = (Ok tt, s')
          /\ (forall i item results,
                items !! i = Some item ->
                eval (for_schemas item compiled []) = Ok results ->
                isItemValid (matchMode context) results = true ->
                In (with_pairedItem item i) (validItems s'))
          /\ (forall o, In o (validItems s') ->
                exists i item, items !! i = Some item /\ o = with_pairedItem item i)
          /\ in_input_order (validItems s')
          /\ in_input_order (invalidItems s'))
  /\ (forall item i,
        json (with_pairedItem item i) = json item
        /\ binary (with_pairedItem item i) = binary item
        /\ extra (with_pairedItem item i) = extra item
        /\ pairedItem (with_pairedItem item i) = Some i).
Proof.
  split; [|split; [|exact with_pairedItem_fields]].
  - intros context items ajv opts schema v Hp Hc.
    destruct (executeSingleSchemaMode_run context items ajv opts schema v Hp Hc)
      as (s' & Hrun & Hv & Hinv).
    pose proof (emitted_in_order (singleOutcome context v opts (dataSource context)) items 0
                  (singleOutcome_pushes_one context v opts (dataSource context)))
      as [Hov Hoi].
    rewrite <- Hv in Hov. rewrite <- Hinv in Hoi.
    exists s'. split; [exact Hrun|]. split; [|split; [|split; assumption]].
    + intros i item r Hi Hr Hvalid. rewrite Hv. apply in_emitted.
      exists i, item. split; [exact Hi|]. simpl. unfold singleOutcome.
      rewrite Hr, Hvalid. simpl. auto.
    + intros o Ho. rewrite Hv in Ho. apply in_emitted in Ho.
      destruct Ho as (k & it & Hk & Hin). simpl in Hin.
      apply singleOutcome_valid in Hin. eauto.
  - intros context items ajv opts compiled Hne Hc.
    destruct (executeMultipleSchemaMode_run context items ajv opts compiled Hne Hc)
      as (s' & Hrun & Hv & Hinv).
    pose proof (emitted_in_order (multiOutcome compiled (matchMode context) opts) items 0
                  (multiOutcome_pushes_one compiled (matchMode context) opts))
      as [Hov Hoi].
    rewrite <- Hv in Hov. rewrite <- Hinv in Hoi.
    exists s'. split; [exact Hrun|]. split; [|split; [|split; assumption]].
    + intros i item results Hi Hr Hvalid. rewrite Hv. apply in_emitted.
      exists i, item. split; [exact Hi|]. simpl. unfold multiOutcome.
      rewrite Hr, Hvalid. simpl. auto.
    + intros o Ho. rewrite Hv in Ho. apply in_emitted in Ho.
      destruct Ho as (k & it & Hk & Hin). simpl in Hin.
      apply multiOutcome_valid in Hin. eauto.
Qed.

(** C9: when the run-fatal checks pass (the schema of single mode parses
    and compiles; in multiple mode there is at least one schema and each
    parses and compiles), [execute] returns its two outputs, their lengths
    add up to the number of input records, and the position references of
    the two outputs together are exactly the positions of the input, each
    once: every record yields one item on one of the two outputs. *)
Theorem C9_one_output_per_record context :
  fatal_checks_pass context (configured_ajv (options context)) = true ->
  exists valid invalid,
    execute context = Ok (valid, invalid)
    /\ length valid + length invalid = length (getInputData context)
    /\ Permutation (positions valid ++ positions invalid)
         (map Some (seq 0 (length (getInputData context)))).
Proof.
  unfold fatal_checks_pass, execute. fold (configured_ajv (options context)).
  set (ajv := configured_ajv (options context)).
  set (items := getInputData context). set (opts := options context).
  destruct (String.eqb (validationMode context) "single"); intros H.
  - unfold schema_compiles in H.
    destruct (parseSchema (jsonSchema context)) as [schema|] eqn:Hp; [|discriminate].
    destruct (compile ajv schema) as [v|] eqn:Hc; [|discriminate].
    destruct (executeSingleSchemaMode_run context items ajv opts schema v Hp Hc)
      as (s' & -> & Hv & Hinv).
    exists (validItems s'), (invalidItems s'). split; [reflexivity|].
    rewrite Hv, Hinv. split.
    + apply (emitted_lengths (singleOutcome context v opts (dataSource context))).
      apply singleOutcome_pushes_one.
    + apply (emitted_permutation (singleOutcome context v opts (dataSource context))).
      apply singleOutcome_pushes_one.
  - apply andb_prop in H. destruct H as [Hne Hall].
    destruct (compileSchemas_ok ajv _ 0 Hall) as [compiled Hc].
    assert (Hne' : default [] (schemaItems context) <> []).
    { intros E. rewrite E in Hne. discriminate. }
    destruct (executeMultipleSchemaMode_run context items ajv opts compiled Hne' Hc)
      as (s' & -> & Hv & Hinv).
    exists (validItems s'), (invalidItems s'). split; [reflexivity|].
    rewrite Hv, Hinv. split.
    + apply (emitted_lengths (multiOutcome compiled (matchMode context) opts)).
      apply multiOutcome_pushes_one.
    + apply (emitted_permutation (multiOutcome compiled (matchMode context) opts)).
      apply multiOutcome_pushes_one.
Qed.

(** ** More on path expressions *)

Lemma string_cons_app x (a b : string) : String x a +:+ b = String x (a +:+ b).
Proof. reflexivity. Qed.

Lemma string_nil_app (b : string) : EmptyString +:+ b = b.
Proof. reflexivity. Qed.


Lemma string_app_assoc (a b c : string) : (a +:+ b) +:+ c = a +:+ (b +:+ c).
Proof.
  induction a as [|x a IH]; [reflexivity|].
  rewrite !string_cons_app. now rewrite IH.
Qed.

Lemma span_chars_spec p s : forall x y,
  span_chars p s = (x, y) ->
  s = x +:+ y
  /\ all_chars p x = true
  /\ match y with EmptyString => True | String c _ => p c = false end.
Proof.
  induction s as [|a s IH]; simpl; intros x y H.
  - injection H as <- <-. repeat split.
  - destruct (p a) eqn:Ea.
    + destruct (span_chars p s) as [x' y'] eqn:Es. injection H as <- <-.
      destruct (IH x' y' eq_refl) as (-> & Hall & Hy). simpl. rewrite Ea. auto.
    + injection H as <- <-. simpl. auto.
Qed.

Lemma span_chars_stop p x : forall y,
  all_chars p x = true ->
  match y with EmptyString => True | String c _ => p c = false end ->
  span_chars p (x +:+ y) = (x, y).
Proof.
  induction x as [|a x IH]; simpl; intros y Hx Hy.
  - destruct y as [|c y]; simpl; [reflexivity|]. now rewrite Hy.
  - apply andb_prop in Hx. destruct Hx as [Ha Hx]. rewrite Ha.
    now rewrite (IH y Hx Hy).
Qed.

Lemma arrayMatch_complete name ds :
  name <> EmptyString -> all_chars is_word_char name = true ->
  ds <> EmptyString -> all_chars is_digit ds = true ->
  arrayMatch (name +:+ "[" +:+ ds +:+ "]") = Some (name, ds).
Proof.
  intros Hne Hn Hde Hd. unfold arrayMatch.
  change ("[" +:+ ds +:+ "]") with (String (Ascii.ascii_of_nat 91) (ds +:+ "]")).
  rewrite (span_chars_stop is_word_char name
             (String (Ascii.ascii_of_nat 91) (ds +:+ "]")) Hn eq_refl).
  destruct name as [|a name]; [congruence|]. simpl.
  rewrite (span_chars_stop is_digit ds "]" Hd eq_refl).
  destruct ds as [|b ds]; [congruence|]. reflexivity.
Qed.

(** X1: the index pattern.  A path part matches [^(\w+)\[(\d+)\]$], with
    groups [name] and [ds], exactly when it is a non-empty run of word
    characters, an opening bracket, a non-empty run of digits and a closing
    bracket, and nothing else. *)
Theorem X1_arrayMatch_spec p name ds :
  arrayMatch p = Some (name, ds)
  <-> p = name +:+ "[" +:+ ds +:+ "]"
      /\ name <> EmptyString /\ all_chars is_word_char name = true
      /\ ds <> EmptyString /\ all_chars is_digit ds = true.
Proof.
  unfold arrayMatch. split.
  - destruct (span_chars is_word_char p) as [n rest] eqn:E1.
    apply span_chars_spec in E1. destruct E1 as (-> & Hn & _).
    destruct n as [|a n]; [discriminate|].
    destruct rest as [|open rest1]; [discriminate|].
    destruct (Ascii.eqb open (Ascii.ascii_of_nat 91)) eqn:Eo; [|discriminate].
    apply Ascii.eqb_eq in Eo. subst open.
    destruct (span_chars is_digit rest1) as [d rest2] eqn:E2.
    apply span_chars_spec in E2. destruct E2 as (-> & Hd & _).
    destruct d as [|b d]; [discriminate|].
    destruct rest2 as [|close rest3]; [discriminate|].
    destruct rest3; [|discriminate].
    destruct (Ascii.eqb close (Ascii.ascii_of_nat 93)) eqn:Ec; [|discriminate].
    apply Ascii.eqb_eq in Ec. subst close.
    intros H. injection H as <- <-. repeat split; auto; discriminate.
  - intros (-> & Hne & Hn & Hde & Hd). now apply arrayMatch_complete.
Qed.

Lemma walk_parts_undefined parts : walk_parts parts JUndefined = Ok JUndefined.
Proof. destruct parts; reflexivity. Qed.

Lemma walk_parts_app parts1 : forall parts2 root,
  walk_parts (parts1 ++ parts2) root
  = rbind (walk_parts parts1 root) (walk_parts parts2).
Proof.
  induction parts1 as [|p rest IH]; intros parts2 root; simpl; [reflexivity|].
  destruct (is_nullish root) eqn:En; simpl; [now rewrite walk_parts_undefined|].
  destruct (js_get_ok root p En) as [w Hw].
  destruct p.
  - destruct (typeof_object root); simpl; [|now rewrite walk_parts_undefined].
    rewrite Hw. simpl. apply IH.
  - destruct (Array_isArray root); simpl; [|now rewrite walk_parts_undefined].
    rewrite Hw. simpl. apply IH.
Qed.

(** X2: paths compose.  Extracting along [p.q] is extracting along [p] and
    then walking [q] from the value found; the same holds for parsed paths
    from any root value. *)
Theorem X2_path_composition :
  (forall parts1 parts2 root,
      walk_parts (parts1 ++ parts2) root
      = rbind (walk_parts parts1 root) (walk_parts parts2))
  /\ (forall item p q,
        extractDataFromPath item (p +:+ "." +:+ q)
        = rbind (extractDataFromPath item p) (walk_parts (parse_path q))).
Proof.
  split; [intros; apply walk_parts_app|].
  intros item p q. unfold extractDataFromPath.
  rewrite parse_path_app. apply walk_parts_app.
Qed.

Lemma split_on_no_sep c s :
  all_chars (fun a => negb (Ascii.eqb a c)) s = true -> split_on c s = [s].
Proof.
  induction s as [|a s IH]; simpl; [reflexivity|]. intros H.
  apply andb_prop in H. destruct H as [Ha Hs].
  destruct (Ascii.eqb a c); [discriminate|]. now rewrite (IH Hs).
Qed.

Lemma all_chars_app p x y :
  all_chars p (x +:+ y) = all_chars p x && all_chars p y.
Proof. induction x as [|a x IH]; simpl; [reflexivity|]. now rewrite IH, andb_assoc. Qed.

Lemma all_chars_impl (p q : ascii -> bool) s :
  (forall a, p a = true -> q a = true) ->
  all_chars p s = true -> all_chars q s = true.
Proof.
  intros Hpq. induction s as [|a s IH]; simpl; [reflexivity|]. intros H.
  apply andb_prop in H. destruct H as [Ha Hs]. now rewrite (Hpq a Ha), (IH Hs).
Qed.

Lemma word_char_not_dot a : is_word_char a = true -> not_dot a = true.
Proof.
  unfold not_dot. destruct (Ascii.eqb a (Ascii.ascii_of_nat 46)) eqn:E; [|reflexivity].
  apply Ascii.eqb_eq in E. subst a. discriminate.
Qed.

Lemma digit_not_dot a : is_digit a = true -> not_dot a = true.
Proof.
  unfold not_dot. destruct (Ascii.eqb a (Ascii.ascii_of_nat 46)) eqn:E; [|reflexivity].
  apply Ascii.eqb_eq in E. subst a. discriminate.
Qed.


(** X4: an indexed segment.  For a key of word characters and a run of
    digits, the path [key[digits]] yields the element at that index when
    the key holds an array, and [undefined] when the index is out of
    bounds, the key is missing, or the key holds anything but an array. *)
Theorem X4_indexed_segment item key ds :
  key <> EmptyString -> all_chars is_word_char key = true ->
  ds <> EmptyString -> all_chars is_digit ds = true ->
  extractDataFromPath item (key +:+ "[" +:+ ds +:+ "]")
  = Ok (match json item !! key with
        | Some (JArr l) => nth (parseInt10 ds) l JUndefined
        | _ => JUndefined
        end)
  /\ (forall l, json item !! key = Some (JArr l) -> length l <= parseInt10 ds ->
        extractDataFromPath item (key +:+ "[" +:+ ds +:+ "]") = Ok JUndefined).
Proof.
  intros Hk Hw Hd Hds.
  assert (Hpath : parse_path (key +:+ "[" +:+ ds +:+ "]")
                  = [Key key; Index (parseInt10 ds)]).
  { unfold parse_path. rewrite split_on_no_sep.
    - simpl. unfold parse_part.
      assert (Hm : arrayMatch (key +:+ "[" +:+ ds +:+ "]") = Some (key, ds)).
      { now apply arrayMatch_complete. }
      now rewrite Hm.
    - change (all_chars not_dot (key +:+ "[" +:+ ds +:+ "]") = true).
      rewrite all_chars_app. change ("[" +:+ ds +:+ "]") with (String (Ascii.ascii_of_nat 91) (ds +:+ "]")).
      cbn [all_chars]. rewrite all_chars_app.
      rewrite (all_chars_impl _ _ key word_char_not_dot Hw).
      rewrite (all_chars_impl _ _ ds digit_not_dot Hds). reflexivity. }
  assert (Hx : extractDataFromPath item (key +:+ "[" +:+ ds +:+ "]")
               = Ok (match json item !! key with
                     | Some (JArr l) => nth (parseInt10 ds) l JUndefined
                     | _ => JUndefined
                     end)).
  { unfold extractDataFromPath. rewrite Hpath. simpl.
    destruct (json item !! key) as [v|]; simpl; [|reflexivity].
    destruct v; reflexivity. }
  split; [exact Hx|].
  intros l Hl Hlen. rewrite Hx, Hl. f_equal. now apply nth_overflow.
Qed.

(** ** More on the validator boundary *)

Lemma join_app sep l1 : forall l2,
  l1 <> [] -> l2 <> [] ->
  join sep (l1 ++ l2) = join sep l1 +:+ sep +:+ join sep l2.
Proof.
  induction l1 as [|x l1 IH]; intros l2 H1 H2; [congruence|].
  destruct l1 as [|x' l1].
  - destruct l2 as [|y l2]; [congruence|]. reflexivity.
  - change (join sep ((x :: x' :: l1) ++ l2))
      with (x +:+ sep +:+ join sep ((x' :: l1) ++ l2)).
    rewrite (IH l2) by (auto; discriminate).
    change (join sep (x :: x' :: l1)) with (x +:+ sep +:+ join sep (x' :: l1)).
    now rewrite !string_app_assoc.
Qed.

(** X5: formatting composes.  The message of two non-empty error lists put
    together is the two messages joined by a comma and a space. *)
Theorem X5_format_app es1 es2 :
  es1 <> [] -> es2 <> [] ->
  formatValidationErrorMessage (es1 ++ es2)
  = formatValidationErrorMessage es1 +:+ ", " +:+ formatValidationErrorMessage es2.
Proof.
  intros H1 H2. unfold formatValidationErrorMessage. rewrite map_app.
  apply join_app.
  - destruct es1; [congruence|discriminate].
  - destruct es2; [congruence|discriminate].
Qed.

(** X6: the contract of [validateData], whatever the validator does.  The
    validator is invoked exactly once, on the given data, and nothing is
    pushed to the outputs.  When it returns [true] the result has no
    errors, even if diagnostics were left behind; when it returns [false]
    the errors are the normalised diagnostics, one per raw diagnostic, none
    for [null]; when it throws, the exception propagates unchanged. *)
Theorem X6_validateData_contract validator data s :
  exists res s',
    validateData validator data s = (res, s')
    /\ calls s' = calls s ++ [mkCall (fn_id validator) data]
    /\ validItems s' = validItems s
    /\ invalidItems s' = invalidItems s
    /\ match run validator data with
       | Returns true _ => res = Ok (mkValidationResult true [])
       | Returns false errs =>
           res = Ok (mkValidationResult false (map transformError (default [] errs)))
       | Throws e => res = Throw e
       end.
Proof.
  destruct (validateData_run validator data s) as (s' & H & Hv & Hi & Hc).
  exists (verdict validator data), s'. repeat split; auto.
  unfold verdict. destruct (run validator data) as [[|] [raw|]|e]; reflexivity.
Qed.

Lemma verdict_valid_no_errors validator data r :
  verdict validator data = Ok r -> isValid r = true -> errors r = [].
Proof.
  unfold verdict. destruct (run validator data) as [[|] [raw|]|e];
    intros H; inversion H; subst; simpl; congruence.
Qed.

(** One step of the schema loop: the result carries the schema's name, and
    has no errors when it is valid. *)
Lemma schemaStep_result item c :
  exists r,
    schemaName r = name c
    /\ (ms_isValid r = true -> ms_errors r = [])
    /\ forall acc, stable (schemaStep item c acc) (Ok (acc ++ [r])).
Proof.
  assert (Hv : forall data, exists r,
             schemaName r = name c
             /\ (ms_isValid r = true -> ms_errors r = [])
             /\ forall acc,
                stable (try_catch
                          (result <- validateData (validator c) data ;;
                           ret (acc ++ [mkMultiResult (name c) (isValid result)
                                                      (errors result)]))
                          (fun error => ret (acc ++ [caught_result c error])))
                       (Ok (acc ++ [r]))).
  { intros data. destruct (verdict (validator c) data) as [res|e] eqn:Ev.
    - exists (mkMultiResult (name c) (isValid res) (errors res)).
      split; [reflexivity|]. split; [exact (verdict_valid_no_errors _ _ _ Ev)|].
      intros acc s.
      destruct (validateData_run (validator c) data s) as (s' & E & Hv & Hi & _).
      unfold try_catch, bind, ret. rewrite E, Ev. eauto.
    - exists (caught_result c e).
      split; [reflexivity|]. split; [discriminate|].
      intros acc s.
      destruct (validateData_run (validator c) data s) as (s' & E & Hv & Hi & _).
      unfold try_catch, bind, ret. rewrite E, Ev. eauto. }
  unfold schemaStep.
  destruct (String.eqb (dataPath c) EmptyString); simpl; [apply Hv|].
  destruct (extractDataFromPath item (dataPath c)) as [v|e] eqn:Ex.
  - destruct (is_undefined v) eqn:Eu.
    + exists (path_not_found c). split; [reflexivity|]. split; [discriminate|].
      intros acc s. unfold try_catch, bind, lift, ret. rewrite Eu. eauto.
    + destruct (Hv v) as (r & Hn & He & Hr). exists r.
      split; [exact Hn|]. split; [exact He|]. intros acc s.
      destruct (Hr acc s) as (s' & E & Hs). exists s'. split; [|exact Hs].
      rewrite <- E. unfold try_catch, bind, lift, ret. now rewrite Eu.
  - exists (caught_result c e). split; [reflexivity|]. split; [discriminate|].
    intros acc s. unfold try_catch, bind, lift, ret. eauto.
Qed.

Lemma for_schemas_results item cs :
  exists results,
    map schemaName results = map name cs
    /\ Forall (fun r => ms_isValid r = true -> ms_errors r = []) results
    /\ forall acc, stable (for_schemas item cs acc) (Ok (acc ++ results)).
Proof.
  induction cs as [|c cs (results & Hn & Hf & IH)]; simpl.
  - exists []. split; [reflexivity|]. split; [constructor|].
    intros acc. rewrite app_nil_r. apply stable_ret.
  - destruct (schemaStep_result item c) as (r & Hrn & Hre & Hr).
    exists (r :: results). split; [simpl; congruence|]. split; [constructor; auto|].
    intros acc s. destruct (Hr acc s) as (s1 & E1 & Hv1 & Hi1).
    destruct (IH (acc ++ [r]) s1) as (s2 & E2 & Hv2 & Hi2).
    exists s2. unfold bind. rewrite E1, E2, <- app_assoc. simpl.
    repeat split; congruence.
Qed.

(** X7: the per-schema results of a record line up with the configured
    schemas, one result per schema, in order and under the schema's name,
    whatever the validators do (return, find no path, or throw); and a
    result that is valid carries no errors. *)
Theorem X7_results_align item compiled :
  exists results,
    eval (for_schemas item compiled []) = Ok results
    /\ map schemaName results = map name compiled
    /\ Forall (fun r => ms_isValid r = true -> ms_errors r = []) results.
Proof.
  destruct (for_schemas_results item compiled) as (results & Hn & Hf & Hst).
  exists results. split; [|split; assumption].
  exact (stable_eval _ _ (Hst [])).
Qed.

(** X8: a validator that throws does not abort the schema loop.  For a
    schema without data path whose validator throws on the record, the
    step appends a result that is not valid and carries one error with
    field [/], the exception's message and keyword [parse]. *)
Theorem X8_throwing_validator_caught item c acc s e :
  dataPath c = EmptyString ->
  run (validator c) (JObj (json item)) = Throws e ->
  exists s',
    schemaStep item c acc s
    = (Ok (acc ++ [mkMultiResult (name c) false
                     [mkValidationError "/" (exn_message e) "parse" ∅]]), s')
    /\ validItems s' = validItems s
    /\ invalidItems s' = invalidItems s.
Proof.
  intros Hp Hrun. unfold schemaStep. rewrite Hp. simpl.
  destruct (validateData_run (validator c) (JObj (json item)) s) as (s' & E & Hv & Hi & _).
  unfold verdict in E. rewrite Hrun in E.
  exists s'. unfold try_catch, bind, ret. rewrite E. auto.
Qed.

(** X9: a schema with a data path checks the value found there, not the
    record.  When extraction yields a value other than [undefined] (it may
    be [null]), the validator is invoked once, on that value, and the
    appended result carries its verdict. *)
Theorem X9_scoped_validation item c acc s v b errs :
  dataPath c <> EmptyString ->
  extractDataFromPath item (dataPath c) = Ok v ->
  is_undefined v = false ->
  run (validator c) v = Returns b errs ->
  exists s',
    schemaStep item c acc s
    = (Ok (acc ++ [mkMultiResult (name c) b
                     (if b then [] else map transformError (default [] errs))]), s')
    /\ calls s' = calls s ++ [mkCall (fn_id (validator c)) v].
Proof.
  intros Hp Hx Hu Hrun. unfold schemaStep.
  destruct (String.eqb (dataPath c) EmptyString) eqn:E0.
  { apply String.eqb_eq in E0. congruence. }
  simpl. unfold try_catch, bind, lift, ret. rewrite Hx, Hu.
  destruct (validateData_run (validator c) v s) as (s' & E & _ & _ & Hc).
  unfold verdict in E. rewrite Hrun in E. rewrite E.
  exists s'. split; [|exact Hc].
  destruct b; [reflexivity|]. destruct errs; reflexivity.
Qed.

Lemma singleOutcome_validator_throws context v opts ds i item e :
  String.eqb ds "customJson" = false ->
  run v (JObj (json item)) = Throws e ->
  singleOutcome context v opts ds i item
  = ([], [caught_item opts item i (exn_message e)]).
Proof.
  intros Hds Hrun. unfold singleOutcome, eval, singleCheck, extractDataToValidate.
  rewrite Hds. unfold bind, lift, ret.
  destruct (validateData_run v (JObj (json item)) initState) as (s' & E & _).
  unfold verdict in E. rewrite Hrun in E. now rewrite E.
Qed.

(** X10: single mode survives a validator that throws.  With the record
    itself as data, when the validator throws on record [i] the run still
    completes; that record gets one item on the invalid output, with one
    error of keyword [parse] carrying the exception's message, and none on
    the valid output. *)
Theorem X10_single_validator_throws context items ajv opts schema v i item e :
  parseSchema (jsonSchema context) = Ok schema ->
  compile ajv schema = Ok v ->
  String.eqb (dataSource context) "customJson" = false ->
  items !! i = Some item ->
  run v (JObj (json item)) = Throws e ->
  let o := caught_item opts item i (exn_message e) in
  exists s',
    executeSingleSchemaMode context items ajv opts initState = (Ok tt, s')
    /\ In o (invalidItems s')
    /\ json o !! "validationErrors"
       = Some (errors_value [mkValidationError "/" (exn_message e) "parse" ∅])
    /\ json o !! "validationMessage" = Some (JStr (exn_message e))
    /\ (forall o', In o' (validItems s') -> pairedItem o' <> Some i)
    /\ (forall o', In o' (invalidItems s') -> pairedItem o' = Some i -> o' = o)
    /\ length (validItems s') + length (invalidItems s') = length items.
Proof.
  intros Hp Hc Hds Hi Hrun o.
  pose proof (singleOutcome_validator_throws context v opts (dataSource context)
                i item e Hds Hrun) as Hout.
  destruct (single_record_caught context items ajv opts schema v i item _ Hp Hc Hi Hout)
    as (s' & Hrun' & Hin & Hv & Hinv & Ev & Einv).
  exists s'. split; [exact Hrun'|]. split; [exact Hin|].
  split; [|split; [|split; [exact Hv|split; [exact Hinv|]]]].
  - unfold o, caught_item, diagnostic_json. simpl.
    rewrite lookup_insert_ne by discriminate. now rewrite lookup_insert_eq.
  - unfold o, caught_item, diagnostic_json. simpl. now rewrite lookup_insert_eq.
  - rewrite Ev, Einv.
    apply (emitted_lengths (singleOutcome context v opts (dataSource context))).
    apply singleOutcome_pushes_one.
Qed.

(** ** Run-fatal failures *)

Lemma compileSchemaItem_fail ajv si k :
  schema_compiles ajv (si_schema si) = false ->
  exists detail,
    compileSchemaItem ajv si k
    = Throw (NodeOperationError
               ("Error compiling schema " +:+ dquote +:+ display_name si k
                +:+ dquote +:+ ": " +:+ detail)).
Proof.
  unfold schema_compiles, compileSchemaItem, isValidJsonSchema, createValidator.
  destruct (parseSchema (si_schema si)) as [schema|e]; simpl.
  - destruct (compile ajv schema) as [v|e]; [discriminate|]. simpl. eauto.
  - eauto.
Qed.

Lemma compileSchemaItem_ok ajv si k :
  schema_compiles ajv (si_schema si) = true ->
  exists c schema,
    compileSchemaItem ajv si k = Ok c
    /\ name c = display_name si k
    /\ dataPath c = default EmptyString (si_dataPath si)
    /\ parseSchema (si_schema si) = Ok schema
    /\ compile ajv schema = Ok (validator c).
Proof.
  unfold schema_compiles, compileSchemaItem, isValidJsonSchema, createValidator.
  destruct (parseSchema (si_schema si)) as [schema|e]; [|discriminate]. simpl.
  destruct (compile ajv schema) as [v|e] eqn:Ec; [|discriminate]. simpl. intros _.
  eexists _, schema. split; [reflexivity|]. simpl. repeat split; auto.
  destruct (si_dataPath si) as [d|]; simpl; [|reflexivity].
  unfold str_or. destruct (String.eqb d EmptyString) eqn:E; [|reflexivity].
  apply String.eqb_eq in E. congruence.
Qed.

Lemma schema_compiles_of_item ajv si k c :
  compileSchemaItem ajv si k = Ok c -> schema_compiles ajv (si_schema si) = true.
Proof.
  intros H. destruct (schema_compiles ajv (si_schema si)) eqn:E; [reflexivity|].
  destruct (compileSchemaItem_fail ajv si k E) as [d Hd]. congruence.
Qed.

Lemma compileSchemas_first_failure ajv good : forall start bad rest,
  forallb (fun si => schema_compiles ajv (si_schema si)) good = true ->
  schema_compiles ajv (si_schema bad) = false ->
  exists detail,
    compileSchemas ajv start (good ++ bad :: rest)
    = Throw (NodeOperationError
               ("Error compiling schema " +:+ dquote
                +:+ display_name bad (start + length good)
                +:+ dquote +:+ ": " +:+ detail)).
Proof.
  induction good as [|si good IH]; intros start bad rest Hg Hb; simpl.
  - destruct (compileSchemaItem_fail ajv bad start Hb) as [d Hd].
    rewrite Hd, Nat.add_0_r. simpl. eauto.
  - simpl in Hg. apply andb_prop in Hg. destruct Hg as [Hsi Hg].
    destruct (compileSchemaItem_ok ajv si start Hsi) as (c & _ & -> & _). simpl.
    destruct (IH (S start) bad rest Hg Hb) as [d Hd]. rewrite Hd. simpl.
    rewrite Nat.add_succ_r. eauto.
Qed.

Lemma compileSchemas_fail ajv schemas : forall start,
  forallb (fun si => schema_compiles ajv (si_schema si)) schemas = false ->
  exists msg, compileSchemas ajv start schemas = Throw (NodeOperationError msg).
Proof.
  induction schemas as [|si rest IH]; intros start H; simpl in *; [discriminate|].
  destruct (schema_compiles ajv (si_schema si)) eqn:Esi; simpl in H.
  - destruct (compileSchemaItem_ok ajv si start Esi) as (c & _ & -> & _). simpl.
    destruct (IH (S start) H) as [msg ->]. simpl. eauto.
  - destruct (compileSchemaItem_fail ajv si start Esi) as [d ->]. simpl. eauto.
Qed.

(** X11: when a run-fatal check fails (the schema of single mode does not
    parse or compile; in multiple mode there is no schema, or one of them
    does not parse or compile), [execute] throws a [NodeOperationError] and
    returns no output at all. *)
Theorem X11_fatal_checks_abort context :
  fatal_checks_pass context (configured_ajv (options context)) = false ->
  exists msg, execute context = Throw (NodeOperationError msg).
Proof.
  unfold fatal_checks_pass, execute. fold (configured_ajv (options context)).
  set (ajv := configured_ajv (options context)).
  destruct (String.eqb (validationMode context) "single"); intros H.
  - unfold schema_compiles in H.
    unfold executeSingleSchemaMode, try_catch, bind, lift, ret, throw,
      isValidJsonSchema, createValidator.
    destruct (parseSchema (jsonSchema context)) as [schema|e]; simpl; [|eauto].
    destruct (compile ajv schema) as [v|e]; [discriminate|]. simpl. eauto.
  - unfold executeMultipleSchemaMode, throw, bind, lift.
    destruct (default [] (schemaItems context)) as [|si sis] eqn:Es; simpl; [eauto|].
    simpl in H.
    destruct (compileSchemas_fail ajv (si :: sis) 0 H) as [msg Hmsg].
    simpl in Hmsg. rewrite Hmsg. eauto.
Qed.

(** X12: the fatal error of multiple mode names the first schema that does
    not parse or compile: by its configured name, or by [Schema n] with its
    one-based position when the name is empty. *)
Theorem X12_first_bad_schema_named ajv good bad rest :
  forallb (fun si => schema_compiles ajv (si_schema si)) good = true ->
  schema_compiles ajv (si_schema bad) = false ->
  exists detail,
    compileSchemas ajv 0 (good ++ bad :: rest)
    = Throw (NodeOperationError
               ("Error compiling schema " +:+ dquote
                +:+ (if String.eqb (si_schemaName bad) EmptyString
                     then "Schema " +:+ pretty (length good + 1)
                     else si_schemaName bad)
                +:+ dquote +:+ ": " +:+ detail)).
Proof.
  intros Hg Hb.
  destruct (compileSchemas_first_failure ajv good 0 bad rest Hg Hb) as [d Hd].
  exists d. rewrite Hd. reflexivity.
Qed.

(** X13: multiple mode without schemas (the list is empty or was never
    set) fails at once with its own message, before any record is looked
    at. *)
Theorem X13_no_schemas context :
  String.eqb (validationMode context) "single" = false ->
  default [] (schemaItems context) = [] ->
  execute context
  = Throw (NodeOperationError
             "At least one schema is required in multiple schemas mode")
  /\ forall items ajv opts s,
       executeMultipleSchemaMode context items ajv opts s
       = (Throw (NodeOperationError
                   "At least one schema is required in multiple schemas mode"), s).
Proof.
  intros Hm He. split.
  - unfold execute. rewrite Hm. unfold executeMultipleSchemaMode. now rewrite He.
  - intros items ajv opts s. unfold executeMultipleSchemaMode. now rewrite He.
Qed.

(** X14: the fatal errors of single mode.  A schema text that does not
    decode aborts with [Invalid JSON schema format: ] and the decoder's
    message; a schema the compiler rejects aborts with
    [Invalid JSON Schema: ] and the compiler's message ([Unknown error]
    when that is empty).  Either way nothing is pushed and no validator is
    invoked. *)
Theorem X14_single_fatal_messages :
  (forall context items ajv opts s text e,
      jsonSchema context = JStr text ->
      JSON_parse text = Throw e ->
      executeSingleSchemaMode context items ajv opts s
      = (Throw (NodeOperationError
                  ("Invalid JSON schema format: " +:+ exn_message e)), s))
  /\ (forall context items ajv opts s schema e,
        parseSchema (jsonSchema context) = Ok schema ->
        compile ajv schema = Throw e ->
        executeSingleSchemaMode context items ajv opts s
        = (Throw (NodeOperationError
                    ("Invalid JSON Schema: "
                     +:+ (if String.eqb (exn_message e) EmptyString
                          then "Unknown error" else exn_message e))), s)).
Proof.
  split.
  - intros context items ajv opts s text e Hj Hp.
    unfold executeSingleSchemaMode, try_catch, bind, lift, throw, parseSchema.
    now rewrite Hj, Hp.
  - intros context items ajv opts s schema e Hp Hc.
    unfold executeSingleSchemaMode, try_catch, bind, lift, throw, ret,
      isValidJsonSchema.
    rewrite Hp. simpl. rewrite Hc. reflexivity.
Qed.

(** X15: the [coerceTypes] and [allowUnionTypes] options are read but never
    reach the compiler: whatever they are set to, [execute] configures the
    same compiler and returns the same result. *)
Theorem X15_coercion_options_unused context coerce allowUnion :
  configured_ajv (options (with_coercion_options context coerce allowUnion))
  = configured_ajv (options context)
  /\ execute (with_coercion_options context coerce allowUnion) = execute context.
Proof. split; reflexivity. Qed.

(** X16: what a successful compilation hands to the item loop.  There is
    one compiled schema per configured schema, in order; each carries the
    validator compiled from its parsed document, a non-empty name (the
    configured one, or [Schema n] by position) and the configured data
    path, empty when none was given. *)
Theorem X16_compiled_schemas ajv schemas compiled :
  compileSchemas ajv 0 schemas = Ok compiled ->
  length compiled = length schemas
  /\ forall k si, schemas !! k = Some si ->
       exists c schema,
         compiled !! k = Some c
         /\ name c = (if String.eqb (si_schemaName si) EmptyString
                      then "Schema " +:+ pretty (k + 1)
                      else si_schemaName si)
         /\ name c <> EmptyString
         /\ dataPath c = default EmptyString (si_dataPath si)
         /\ parseSchema (si_schema si) = Ok schema
         /\ compile ajv schema = Ok (validator c).
Proof.
  assert (G : forall schemas start compiled,
             compileSchemas ajv start schemas = Ok compiled ->
             length compiled = length schemas
             /\ forall k si, schemas !! k = Some si ->
                  exists c schema,
                    compiled !! k = Some c
                    /\ name c = display_name si (start + k)
                    /\ dataPath c = default EmptyString (si_dataPath si)
                    /\ parseSchema (si_schema si) = Ok schema
                    /\ compile ajv schema = Ok (validator c)).
  { clear. induction schemas as [|si rest IH]; intros start compiled H; simpl in H.
    - injection H as <-. split; [reflexivity|]. intros k si Hk. destruct k; discriminate.
    - destruct (compileSchemaItem ajv si start) as [c|e] eqn:Ec; [|discriminate].
      simpl in H.
      destruct (compileSchemas ajv (S start) rest) as [cs|e] eqn:Ecs; [|discriminate].
      simpl in H. injection H as <-.
      destruct (IH (S start) cs Ecs) as [Hlen Hall].
      split; [simpl; congruence|]. intros k si' Hk. destruct k as [|k]; simpl in Hk.
      + injection Hk as <-.
        destruct (compileSchemaItem_ok ajv si start
                    (schema_compiles_of_item ajv si start c Ec))
          as (c' & schema & Ec' & Hn & Hd & Hp & Hc).
        assert (c' = c) by congruence. subst c'.
        exists c, schema. rewrite Nat.add_0_r. auto.
      + destruct (Hall k si' Hk) as (c' & schema & Hl & Hn & Hrest).
        exists c', schema. rewrite Nat.add_succ_r. simpl. auto. }
  intros H. destruct (G schemas 0 compiled H) as [Hlen Hall].
  split; [exact Hlen|]. intros k si Hk.
  destruct (Hall k si Hk) as (c & schema & Hl & Hn & Hd & Hp & Hc).
  exists c, schema. split; [exact Hl|]. simpl in Hn.
  assert (Hname : name c = (if String.eqb (si_schemaName si) EmptyString
                            then "Schema " +:+ pretty (k + 1)
                            else si_schemaName si)) by (rewrite Hn; reflexivity).
  split; [exact Hname|]. split; [|auto].
  rewrite Hname. destruct (String.eqb (si_schemaName si) EmptyString) eqn:E.
  - discriminate.
  - intros E'. rewrite E' in E. discriminate.
Qed.

(** ** Validator invocations *)

Lemma singleItem_calls context v opts ds i item s :
  String.eqb ds "customJson" = false ->
  exists s',
    singleItem context v opts ds i item s = (Ok tt, s')
    /\ calls s' = calls s ++ [mkCall (fn_id v) (JObj (json item))].
Proof.
  intros Hds. rewrite singleItem_unfold.
  unfold singleCheck, extractDataToValidate. rewrite Hds. unfold bind, lift, ret.
  destruct (validateData_run v (JObj (json item)) s) as (s1 & E & _ & _ & Hc).
  rewrite E. destruct (verdict v (JObj (json item))) as [r|e];
    [destruct (isValid r)|]; eexists; split; try reflexivity; exact Hc.
Qed.

Lemma for_items_calls body (f : Item -> list Call) :
  (forall i item s, exists s',
      body i item s = (Ok tt, s') /\ calls s' = calls s ++ f item) ->
  forall items start s, exists s',
    for_items body start items s = (Ok tt, s')
    /\ calls s' = calls s ++ flat_map f items.
Proof.
  intros Hbody items. induction items as [|item rest IH]; intros start s; simpl.
  - exists s. rewrite app_nil_r. split; reflexivity.
  - destruct (Hbody start item s) as (s1 & E1 & H1).
    destruct (IH (S start) s1) as (s2 & E2 & H2).
    exists s2. unfold bind. rewrite E1, E2, H2, H1, <- app_assoc. split; reflexivity.
Qed.

(** X17: single mode with the record itself as data invokes the validator
    exactly once per record, in input order, each time on that record's
    [json], whether the record turns out valid, invalid, or makes the
    validator throw. *)
Theorem X17_single_one_call_per_record context items ajv opts schema v :
  parseSchema (jsonSchema context) = Ok schema ->
  compile ajv schema = Ok v ->
  String.eqb (dataSource context) "customJson" = false ->
  exists s',
    executeSingleSchemaMode context items ajv opts initState = (Ok tt, s')
    /\ calls s' = map (fun item => mkCall (fn_id v) (JObj (json item))) items.
Proof.
  intros Hp Hc Hds.
  unfold executeSingleSchemaMode, try_catch, bind, lift, ret, throw,
    isValidJsonSchema, createValidator.
  rewrite Hp. simpl. rewrite Hc. simpl. rewrite ?Hc.
  destruct (for_items_calls (singleItem context v opts (dataSource context))
              (fun item => [mkCall (fn_id v) (JObj (json item))])
              (fun i item s => singleItem_calls context v opts _ i item s Hds)
              items 0 initState) as (s' & E & H).
  exists s'. split; [exact E|]. rewrite H. simpl.
  clear. induction items as [|item rest IH]; simpl; congruence.
Qed.






(** ** Diagnostic records *)

Lemma diagnostic_json_other opts item key details msg k :
  k <> "validationMessage" -> k <> key ->
  diagnostic_json opts item key details msg !! k
  = if truthy (includeOriginalData opts) then json item !! k else None.
Proof.
  intros H1 H2. unfold diagnostic_json.
  rewrite lookup_insert_ne by congruence. rewrite lookup_insert_ne by congruence.
  destruct (truthy (includeOriginalData opts)); [reflexivity|apply lookup_empty].
Qed.

(** X19: the diagnostic records of single mode.  Every item on the invalid
    output refers to an input record, always carries a string
    [validationMessage] and a [validationErrors] property, and has no
    other field of its own: any other key reads as in the input record
    when [includeOriginalData] is set, and is absent otherwise; so input
    fields named [validationMessage] or [validationErrors] are replaced.
    The binary payload is the record's or none, and is none unless
    [includeOriginalData] is set. *)
Theorem X19_single_diagnostic_shape context items ajv opts schema v :
  parseSchema (jsonSchema context) = Ok schema ->
  compile ajv schema = Ok v ->
  exists s',
    executeSingleSchemaMode context items ajv opts initState = (Ok tt, s')
    /\ forall o, In o (invalidItems s') ->
       exists i item msg details,
         items !! i = Some item
         /\ pairedItem o = Some i
         /\ json o !! "validationMessage" = Some (JStr msg)
         /\ json o !! "validationErrors" = Some details
         /\ (forall k, k <> "validationMessage" -> k <> "validationErrors" ->
               json o !! k
               = if truthy (includeOriginalData opts) then json item !! k else None)
         /\ (binary o = None
             \/ (truthy (includeOriginalData opts) = true /\ binary o = binary item)).
Proof.
  intros Hp Hc.
  destruct (executeSingleSchemaMode_run context items ajv opts schema v Hp Hc)
    as (s' & Hrun & _ & Hinv).
  exists s'. split; [exact Hrun|]. intros o Ho.
  rewrite Hinv in Ho. apply in_emitted in Ho. destruct Ho as (k & item & Hk & Hin).
  simpl in Hin. unfold singleOutcome in Hin.
  destruct (eval (singleCheck context v (dataSource context) k item)) as [r|e].
  - destruct (isValid r); simpl in Hin; [destruct Hin|]. destruct Hin as [<-|[]].
    eexists k, item, _, _. split; [exact Hk|]. split; [reflexivity|].
    unfold diagnostic_item. simpl. split; [apply lookup_insert_eq|].
    split; [unfold diagnostic_json; rewrite lookup_insert_ne by discriminate;
            apply lookup_insert_eq|].
    split; [intros; now apply diagnostic_json_other|].
    destruct (truthy (includeOriginalData opts)); auto.
  - simpl in Hin. destruct Hin as [<-|[]].
    eexists k, item, _, _. split; [exact Hk|]. split; [reflexivity|].
    unfold caught_item. simpl. split; [apply lookup_insert_eq|].
    split; [unfold diagnostic_json; rewrite lookup_insert_ne by discriminate;
            apply lookup_insert_eq|].
    split; [intros; now apply diagnostic_json_other|]. auto.
Qed.

(** X20: the diagnostic records of multiple mode.  Every item on the
    invalid output refers to an input record, carries a string
    [validationMessage] and a [validationResults] property; any other key
    reads as in the input record when [includeOriginalData] is set and is
    absent otherwise; the binary payload is carried over exactly when
    [includeOriginalData] is set. *)
Theorem X20_multi_diagnostic_shape context items ajv opts compiled :
  default [] (schemaItems context) <> [] ->
  compileSchemas ajv 0 (default [] (schemaItems context)) = Ok compiled ->
  exists s',
    executeMultipleSchemaMode context items ajv opts initState = (Ok tt, s')
    /\ forall o, In o (invalidItems s') ->
       exists i item msg details,
         items !! i = Some item
         /\ pairedItem o = Some i
         /\ json o !! "validationMessage" = Some (JStr msg)
         /\ json o !! "validationResults" = Some details
         /\ (forall k, k <> "validationMessage" -> k <> "validationResults" ->
               json o !! k
               = if truthy (includeOriginalData opts) then json item !! k else None)
         /\ binary o
            = if truthy (includeOriginalData opts) then binary item else None.
Proof.
  intros Hne Hc.
  destruct (executeMultipleSchemaMode_run context items ajv opts compiled Hne Hc)
    as (s' & Hrun & _ & Hinv).
  exists s'. split; [exact Hrun|]. intros o Ho.
  rewrite Hinv in Ho. apply in_emitted in Ho. destruct Ho as (k & item & Hk & Hin).
  simpl in Hin.
  destruct (multiOutcome_eq compiled (matchMode context) opts k item)
    as (results & _ & _ & Hout).
  rewrite Hout in Hin.
  destruct (isItemValid (matchMode context) results); simpl in Hin; [destruct Hin|].
  destruct Hin as [<-|[]].
  eexists k, item, _, _. split; [exact Hk|]. split; [reflexivity|].
  unfold diagnostic_item. simpl. split; [apply lookup_insert_eq|].
  split; [unfold diagnostic_json; rewrite lookup_insert_ne by discriminate;
          apply lookup_insert_eq|].
  split; [intros; now apply diagnostic_json_other|reflexivity].
Qed.

(** X21: who failed when a record is invalid.  Under [all] an invalid
    record has at least one failing result; under any other match mode
    every result of an invalid record is failing, so the failing results
    are all the results. *)
Theorem X21_failed_schemas mode results :
  isItemValid mode results = false ->
  (String.eqb mode "all" = true -> failedSchemas results <> [])
  /\ (String.eqb mode "all" = false -> failedSchemas results = results).
Proof.
  unfold isItemValid, failedSchemas. intros H. split; intros Hm; rewrite Hm in H.
  - induction results as [|r rest IH]; simpl in *; [discriminate|].
    destruct (ms_isValid r); simpl in *; [auto|discriminate].
  - induction results as [|r rest IH]; simpl in *; [reflexivity|].
    destruct (ms_isValid r); simpl in *; [discriminate|]. now rewrite (IH H).
Qed.

(** ** Schema and data sources *)

(** X22: [parseMultipleSchemas] on text.  Whatever it returns for a string
    is an array; a text that decodes to anything else fails with
    [Invalid schemas format: Expected an array of schemas] (the inner
    error is wrapped by the function's own handler), and a text that does
    not decode fails with the same prefix and the decoder's message.
    [parseSchema], in contrast, accepts whatever the text decodes to. *)
Theorem X22_parseMultipleSchemas :
  (forall text v, parseMultipleSchemas (JStr text) = Ok v -> exists l, v = JArr l)
  /\ (forall text v,
        JSON_parse text = Ok v -> Array_isArray v = false ->
        parseMultipleSchemas (JStr text)
        = Throw (Error "Invalid schemas format: Expected an array of schemas")
        /\ parseSchema (JStr text) = Ok v)
  /\ (forall text e,
        JSON_parse text = Throw e ->
        parseMultipleSchemas (JStr text)
        = Throw (Error ("Invalid schemas format: " +:+ exn_message e)))
  /\ (forall text l,
        JSON_parse text = Ok (JArr l) ->
        parseMultipleSchemas (JStr text) = Ok (JArr l)).
Proof.
  unfold parseMultipleSchemas, parseSchema. split; [|split; [|split]].
  - intros text v. destruct (JSON_parse text) as [w|e]; simpl; [|discriminate].
    destruct w; simpl; try discriminate. intros H. injection H as <-. eauto.
  - intros text v H Ha. rewrite H. simpl. rewrite Ha. split; reflexivity.
  - intros text e H. now rewrite H.
  - intros text l H. now rewrite H.
Qed.

(** X23: the only ways [extractDataToValidate] fails.  It throws only with
    the custom-value source, and then either because the custom value is
    falsy (the missing-value error) or because it is a string that does
    not decode ([Invalid custom JSON: ] and the decoder's message).  With
    any other source it returns the record's [json] and ignores the
    custom value; a truthy custom value that is no string is used as it
    is. *)
Theorem X23_extractDataToValidate_failures :
  (forall item ds param e,
      extractDataToValidate item ds param = Throw e ->
      ds = "customJson"
      /\ ((js_falsy param = true /\ e = Error custom_json_required)
          \/ exists text e',
               param = JStr text /\ JSON_parse text = Throw e'
               /\ e = Error ("Invalid custom JSON: " +:+ exn_message e')))
  /\ (forall item ds param,
        ds <> "customJson" ->
        extractDataToValidate item ds param = Ok (JObj (json item)))
  /\ (forall item param,
        js_falsy param = false ->
        (forall text, param <> JStr text) ->
        extractDataToValidate item "customJson" param = Ok param).
Proof.
  unfold extractDataToValidate, extractCustomJsonData. split; [|split].
  - intros item ds param e.
    destruct (String.eqb ds "customJson") eqn:Eds; [|discriminate].
    apply String.eqb_eq in Eds. intros H. split; [exact Eds|].
    destruct (js_falsy param) eqn:Ef.
    + left. split; [reflexivity|]. congruence.
    + right. destruct param; try discriminate.
      destruct (JSON_parse s) as [w|e'] eqn:Ep; [discriminate|].
      exists s, e'. repeat split; auto. congruence.
  - intros item ds param Hds.
    destruct (String.eqb ds "customJson") eqn:Eds; [|reflexivity].
    apply String.eqb_eq in Eds. congruence.
  - intros item param Hf Hs. simpl. rewrite Hf.
    destruct param; try reflexivity. now destruct (Hs s).
Qed.

End Engine.

(** ** The theorems at the fixtures *)

Lemma C1_match_mode_witness :
  default [] (schemaItems (demo_multi "all")) <> []
  /\ compileSchemas demo_parse demo_ajv 0 (default [] (schemaItems (demo_multi "all")))
     = Ok demo_compiled
  /\ exists s',
       executeMultipleSchemaMode demo_parse (demo_multi "all") demo_items demo_ajv
         demo_options initState = (Ok tt, s')
       /\ forall i item, demo_items !! i = Some item ->
          exists results,
            eval (for_schemas item demo_compiled []) = Ok results
            /\ length results = length demo_compiled
            /\ (matchMode (demo_multi "all") = "all" ->
                (In (with_pairedItem item i) (validItems s')
                 <-> forall r, In r results -> ms_isValid r = true))
            /\ (matchMode (demo_multi "all") = "any" ->
                (In (with_pairedItem item i) (validItems s')
                 <-> exists r, In r results /\ ms_isValid r = true)).
Proof.
  split; [discriminate|]. split; [reflexivity|].
  apply (C1_match_mode demo_parse (demo_multi "all") demo_items demo_ajv demo_options
           demo_compiled); [discriminate|reflexivity].
Defined.

Lemma C2_invalid_diagnostic_witness :
  default [] (schemaItems (demo_multi "all")) <> []
  /\ compileSchemas demo_parse demo_ajv 0 (default [] (schemaItems (demo_multi "all")))
     = Ok demo_compiled
  /\ exists s',
       executeMultipleSchemaMode demo_parse (demo_multi "all") demo_items demo_ajv
         demo_options initState = (Ok tt, s')
       /\ forall o, In o (invalidItems s') ->
          exists i item results,
            demo_items !! i = Some item
            /\ pairedItem o = Some i
            /\ eval (for_schemas item demo_compiled []) = Ok results
            /\ length results = length demo_compiled
            /\ isItemValid (matchMode (demo_multi "all")) results = false
            /\ json o !! "validationMessage"
               = Some (JStr (join "; "
                    (map (fun r => "[" +:+ schemaName r +:+ "] "
                                   +:+ formatValidationErrorMessage (ms_errors r))
                         (List.filter (fun r => negb (ms_isValid r)) results))))
            /\ json o !! "validationResults"
               = Some (if not_false (includeErrorDetails demo_options)
                       then JArr (map MultiResult_value results)
                       else JUndefined).
Proof.
  split; [discriminate|]. split; [reflexivity|].
  apply (C2_invalid_diagnostic demo_parse (demo_multi "all") demo_items demo_ajv
           demo_options demo_compiled); [discriminate|reflexivity].
Defined.

(** C2 as stated fails: under [all], the record [{name: Ada}] passes the
    first schema and fails the second; it is routed to the invalid output
    and its [validationResults] payload lists both results, the passing one
    included, not the failing results alone. *)
Lemma C2_counterexample :
  exists s' o passing failing,
    executeMultipleSchemaMode demo_parse (demo_multi "all") demo_items demo_ajv
      demo_options initState = (Ok tt, s')
    /\ In o (invalidItems s')
    /\ pairedItem o = Some 0
    /\ eval (for_schemas (demo_item {[ "name" := JStr "Ada" ]}) demo_compiled [])
       = Ok [passing; failing]
    /\ ms_isValid passing = true
    /\ ms_isValid failing = false
    /\ json o !! "validationResults"
       = Some (JArr [MultiResult_value passing; MultiResult_value failing])
    /\ json o !! "validationResults"
       <> Some (JArr (map MultiResult_value (failedSchemas [passing; failing]))).
Proof.
  eexists _, _, _, _.
  split; [vm_compute; reflexivity|].
  split; [left; reflexivity|].
  split; [reflexivity|].
  split; [vm_compute; reflexivity|].
  split; [reflexivity|]. split; [reflexivity|].
  split; [vm_compute; reflexivity|].
  vm_compute. discriminate.
Qed.

Lemma C3_path_extraction_witness :
  extractDataFromPath (demo_item {[ "a" := JObj {[ "b" := JNum 1 ]} ]}) "a.b"
  = Ok (JNum 1)
  /\ extractDataFromPath (demo_item {[ "items" := JArr [JStr "x"; JStr "y"] ]}) "items[1]"
     = Ok (JStr "y")
  /\ walk_parts ([Key "a"] ++ [Key "b"; Index 0]) (JObj {[ "a" := JNull ]})
     = Ok JUndefined
  /\ extractDataFromPath (demo_item {[ "a" := JNull ]}) ("a" +:+ "." +:+ "b.c")
     = Ok JUndefined.
Proof.
  destruct C3_path_extraction as (H1 & H2 & _ & _ & H5 & H6).
  split; [apply H1; reflexivity|].
  split; [apply (H2 _ (JStr "x")); reflexivity|].
  split; [apply (H5 _ _ _ JNull); [discriminate|reflexivity|reflexivity]|].
  apply (H6 _ "a" "b.c" JNull); reflexivity.
Defined.

Lemma C4_path_not_found_witness :
  dataPath demo_scoped <> EmptyString
  /\ extractDataFromPath (demo_item {[ "name" := JStr "Ada" ]}) (dataPath demo_scoped)
     = Ok JUndefined
  /\ schemaStep (demo_item {[ "name" := JStr "Ada" ]}) demo_scoped [] initState
     = (Ok [mkMultiResult "profile" false
              [mkValidationError "user.profile"
                 ("Path " +:+ dquote +:+ "user.profile" +:+ dquote +:+ " not found in item")
                 "path" {[ "path" := JStr "user.profile" ]}]], initState)
  /\ calls (snd (schemaStep (demo_item {[ "name" := JStr "Ada" ]}) demo_scoped []
                   initState)) = [].
Proof.
  split; [discriminate|]. split; [reflexivity|].
  apply (C4_path_not_found (demo_item {[ "name" := JStr "Ada" ]}) demo_scoped []
           initState); [discriminate|reflexivity].
Defined.

Lemma C5_custom_parse_failure_witness :
  parseSchema demo_parse (jsonSchema demo_custom) = Ok (JObj ∅)
  /\ compile demo_ajv (JObj ∅) = Ok (demo_accepts_all 0)
  /\ dataSource demo_custom = "customJson"
  /\ demo_items !! 0 = Some (demo_item {[ "name" := JStr "Ada" ]})
  /\ customJson demo_custom 0 = Ok (JStr "{name: oops}")
  /\ demo_parse "{name: oops}" = Throw (Error "Unexpected token in JSON")
  /\ exists s',
       executeSingleSchemaMode demo_parse demo_custom demo_items demo_ajv demo_options
         initState = (Ok tt, s')
       /\ In (caught_item demo_options (demo_item {[ "name" := JStr "Ada" ]}) 0
                "Invalid custom JSON: Unexpected token in JSON") (invalidItems s')
       /\ length (validItems s') = 1
       /\ length (invalidItems s') = 2.
Proof.
  repeat (split; [reflexivity|]).
  destruct (C5_custom_parse_failure demo_parse demo_custom demo_items demo_ajv
              demo_options (JObj ∅) (demo_accepts_all 0) 0
              (demo_item {[ "name" := JStr "Ada" ]}) "{name: oops}"
              (Error "Unexpected token in JSON")
              eq_refl eq_refl eq_refl eq_refl eq_refl eq_refl)
    as (s' & Hrun & Hin & _ & _ & _ & _ & Hv & Hi).
  exists s'. split; [exact Hrun|]. split; [exact Hin|].
  rewrite Hv, Hi. split; reflexivity.
Defined.

Lemma C6_errors_empty_iff_valid_witness :
  run (demo_requires 1 "name") (JObj ∅)
  = Returns false (Some [demo_required_error "name"])
  /\ exists r s',
       validateData (demo_requires 1 "name") (JObj ∅) initState = (Ok r, s')
       /\ isValid r = false
       /\ (errors r = [] <-> isValid r = true).
Proof.
  split; [reflexivity|].
  apply (C6_errors_empty_iff_valid (demo_requires 1 "name") (JObj ∅) false
           (Some [demo_required_error "name"]) initState); [reflexivity|].
  intros _. exists (demo_required_error "name"), []. reflexivity.
Defined.

(** C7 as stated fails: a diagnostic at the root carries the empty instance
    pointer, which is present; the words of the claim keep it, the code
    replaces it by [/]. *)
Lemma C7_counterexample :
  instancePath demo_type_error = Some EmptyString
  /\ field (spec_normalize demo_type_error) = EmptyString
  /\ field (transformError demo_type_error) = "/"
  /\ transformError demo_type_error <> spec_normalize demo_type_error.
Proof.
  repeat (split; [reflexivity|]). intros H.
  apply (f_equal field) in H. discriminate H.
Qed.

Lemma C7_normalize_and_format_witness :
  run (demo_requires 1 "name") (JObj ∅)
  = Returns false (Some [demo_required_error "name"])
  /\ exists s',
       (invoke (demo_requires 1 "name") (JObj ∅) ;;;
        transformValidationErrors (demo_requires 1 "name")) initState
       = (Ok [mkValidationError "/" "must have required property name" "required"
                {[ "missingProperty" := JStr "name" ]}], s').
Proof.
  split; [reflexivity|].
  destruct C7_normalize_and_format as (_ & H & _).
  apply (H (demo_requires 1 "name") (JObj ∅) false [demo_required_error "name"]
           initState); reflexivity.
Defined.

Lemma C8_valid_unchanged_in_order_witness :
  (exists s',
      executeSingleSchemaMode demo_parse demo_single demo_items demo_ajv demo_options
        initState = (Ok tt, s')
      /\ In (with_pairedItem (demo_item {[ "name" := JStr "Ada" ]}) 0) (validItems s')
      /\ in_input_order (validItems s')
      /\ in_input_order (invalidItems s'))
  /\ (exists s',
        executeMultipleSchemaMode demo_parse (demo_multi "any") demo_items demo_ajv
          demo_options initState = (Ok tt, s')
        /\ In (with_pairedItem (demo_item {[ "name" := JStr "Ada" ]}) 0) (validItems s')
        /\ in_input_order (validItems s')
        /\ in_input_order (invalidItems s')).
Proof.
  destruct (C8_valid_unchanged_in_order demo_parse) as (Hs & Hm & _). split.
  - destruct (Hs demo_single demo_items demo_ajv demo_options
                (JObj {[ "required" := JStr "name" ]}) (demo_requires 5 "name")
                eq_refl eq_refl)
      as (s' & Hrun & Hvalid & _ & Hov & Hoi).
    exists s'. split; [exact Hrun|]. split; [|split; assumption].
    apply (Hvalid 0 _ (mkValidationResult true [])); reflexivity.
  - assert (Hne : default [] (schemaItems (demo_multi "any")) <> []) by discriminate.
    destruct (Hm (demo_multi "any") demo_items demo_ajv demo_options demo_compiled
                Hne eq_refl)
      as (s' & Hrun & Hvalid & _ & Hov & Hoi).
    exists s'. split; [exact Hrun|]. split; [|split; assumption].
    eapply Hvalid; reflexivity.
Defined.

Lemma C9_one_output_per_record_witness :
  fatal_checks_pass demo_parse demo_single
    (configured_ajv (fun _ _ _ => demo_ajv) id id (options demo_single)) = true
  /\ fatal_checks_pass demo_parse (demo_multi "all")
       (configured_ajv (fun _ _ _ => demo_ajv) id id (options (demo_multi "all"))) = true
  /\ (exists valid invalid,
        execute demo_parse (fun _ _ _ => demo_ajv) id id demo_single = Ok (valid, invalid)
        /\ length valid + length invalid = 3)
  /\ (exists valid invalid,
        execute demo_parse (fun _ _ _ => demo_ajv) id id (demo_multi "all")
        = Ok (valid, invalid)
        /\ length valid + length invalid = 3).
Proof.
  split; [reflexivity|]. split; [reflexivity|]. split.
  - destruct (C9_one_output_per_record demo_parse (fun _ _ _ => demo_ajv) id id
                demo_single eq_refl) as (valid & invalid & H & Hlen & _).
    exists valid, invalid. split; [exact H|exact Hlen].
  - destruct (C9_one_output_per_record demo_parse (fun _ _ _ => demo_ajv) id id
                (demo_multi "all") eq_refl) as (valid & invalid & H & Hlen & _).
    exists valid, invalid. split; [exact H|exact Hlen].
Defined.

Lemma C10_empty_custom_value_witness :
  customJson demo_custom 1 = Ok (JStr EmptyString)
  /\ js_falsy (JStr EmptyString) = true
  /\ exists s',
       executeSingleSchemaMode demo_parse demo_custom demo_items demo_ajv demo_options
         initState = (Ok tt, s')
       /\ In (caught_item demo_options (demo_item ∅) 1 custom_json_required)
            (invalidItems s')
       /\ forall o', In o' (validItems s') -> pairedItem o' <> Some 1.
Proof.
  split; [reflexivity|]. split; [reflexivity|].
  destruct (C10_empty_custom_value demo_parse) as (_ & H & _).
  destruct (H demo_custom demo_items demo_ajv demo_options (JObj ∅) (demo_accepts_all 0)
              1 (demo_item ∅) (JStr EmptyString)
              eq_refl eq_refl eq_refl eq_refl eq_refl eq_refl)
    as (s' & Hrun & Hin & _ & _ & _ & Hv & _).
  exists s'. split; [exact Hrun|]. split; [exact Hin|exact Hv].
Defined.

(** ** The further properties at the fixtures *)


Lemma X4_indexed_segment_witness :
  extractDataFromPath (demo_item {[ "items" := JArr [JStr "x"; JStr "y"] ]})
    ("items" +:+ "[" +:+ "1" +:+ "]") = Ok (JStr "y")
  /\ extractDataFromPath (demo_item {[ "items" := JArr [JStr "x"; JStr "y"] ]})
       ("items" +:+ "[" +:+ "7" +:+ "]") = Ok JUndefined.
Proof.
  assert (Hk : "items" <> EmptyString) by discriminate.
  assert (H1 : "1" <> EmptyString) by discriminate.
  assert (H7 : "7" <> EmptyString) by discriminate.
  split.
  - destruct (X4_indexed_segment (demo_item {[ "items" := JArr [JStr "x"; JStr "y"] ]})
                "items" "1" Hk eq_refl H1 eq_refl) as (H & _).
    rewrite H. reflexivity.
  - destruct (X4_indexed_segment (demo_item {[ "items" := JArr [JStr "x"; JStr "y"] ]})
                "items" "7" Hk eq_refl H7 eq_refl) as (_ & H).
    apply (H [JStr "x"; JStr "y"]); [reflexivity|]. vm_compute. lia.
Defined.

Lemma X5_format_app_witness :
  formatValidationErrorMessage
    ([mkValidationError "/name" "must be string" "type" ∅]
     ++ [mkValidationError "/age" "must be number" "type" ∅])
  = "/name: must be string" +:+ ", " +:+ "/age: must be number".
Proof.
  apply (X5_format_app [mkValidationError "/name" "must be string" "type" ∅]
           [mkValidationError "/age" "must be number" "type" ∅]); discriminate.
Defined.

Lemma X8_throwing_validator_caught_witness :
  dataPath demo_crashing_schema = EmptyString
  /\ run (validator demo_crashing_schema) (JObj ∅) = Throws (Error "validator crashed")
  /\ exists s',
       schemaStep (demo_item ∅) demo_crashing_schema [] initState
       = (Ok [mkMultiResult "crash" false
                [mkValidationError "/" "validator crashed" "parse" ∅]], s')
       /\ validItems s' = []
       /\ invalidItems s' = [].
Proof.
  split; [reflexivity|]. split; [reflexivity|].
  apply (X8_throwing_validator_caught (demo_item ∅) demo_crashing_schema [] initState
           (Error "validator crashed")); reflexivity.
Defined.

Lemma X9_scoped_validation_witness :
  extractDataFromPath demo_nested_item (dataPath demo_user_schema)
  = Ok (JObj {[ "name" := JStr "Ada" ]})
  /\ exists s',
       schemaStep demo_nested_item demo_user_schema [] initState
       = (Ok [mkMultiResult "user" true []], s')
       /\ calls s' = [mkCall 5 (JObj {[ "name" := JStr "Ada" ]})].
Proof.
  split; [reflexivity|].
  apply (X9_scoped_validation demo_nested_item demo_user_schema [] initState
           (JObj {[ "name" := JStr "Ada" ]}) true None);
    (discriminate || reflexivity).
Defined.

Lemma X10_single_validator_throws_witness :
  exists s',
    executeSingleSchemaMode demo_parse demo_single demo_items demo_throwing_ajv
      demo_options initState = (Ok tt, s')
    /\ In (caught_item demo_options (demo_item ∅) 1 "validator crashed")
         (invalidItems s')
    /\ length (validItems s') + length (invalidItems s') = 3.
Proof.
  destruct (X10_single_validator_throws demo_parse demo_single demo_items
              demo_throwing_ajv demo_options
              (JObj {[ "required" := JStr "name" ]}) (demo_throws 9) 1 (demo_item ∅)
              (Error "validator crashed"))
    as (s' & Hrun & Hin & _ & _ & _ & _ & Hlen); try reflexivity.
  exists s'. split; [exact Hrun|]. split; [exact Hin|exact Hlen].
Defined.

Lemma X11_fatal_checks_abort_witness :
  fatal_checks_pass demo_parse demo_bad_single
    (configured_ajv (fun _ _ _ => demo_ajv) id id (options demo_bad_single)) = false
  /\ exists msg,
       execute demo_parse (fun _ _ _ => demo_ajv) id id demo_bad_single
       = Throw (NodeOperationError msg).
Proof.
  split; [reflexivity|].
  apply (X11_fatal_checks_abort demo_parse (fun _ _ _ => demo_ajv) id id demo_bad_single).
  reflexivity.
Defined.

Lemma X12_first_bad_schema_named_witness :
  exists detail,
    compileSchemas demo_parse demo_ajv 0
      ([mkSchemaItem "has-name" (JObj {[ "required" := JStr "name" ]}) None]
       ++ mkSchemaItem EmptyString (JNum 3) None :: [])
    = Throw (NodeOperationError
               ("Error compiling schema " +:+ dquote +:+ "Schema 2" +:+ dquote
                +:+ ": " +:+ detail)).
Proof.
  apply (X12_first_bad_schema_named demo_parse demo_ajv
           [mkSchemaItem "has-name" (JObj {[ "required" := JStr "name" ]}) None]
           (mkSchemaItem EmptyString (JNum 3) None) []); reflexivity.
Defined.

Lemma X13_no_schemas_witness :
  default [] (schemaItems demo_no_schemas) = []
  /\ execute demo_parse (fun _ _ _ => demo_ajv) id id demo_no_schemas
     = Throw (NodeOperationError
                "At least one schema is required in multiple schemas mode").
Proof.
  split; [reflexivity|].
  apply (X13_no_schemas demo_parse (fun _ _ _ => demo_ajv) id id demo_no_schemas);
    reflexivity.
Defined.

Lemma X14_single_fatal_messages_witness :
  executeSingleSchemaMode demo_parse demo_bad_single demo_items demo_ajv demo_options
    initState
  = (Throw (NodeOperationError
              "Invalid JSON schema format: Unexpected token in JSON"), initState)
  /\ executeSingleSchemaMode demo_parse
       (mkContext demo_items "single" (JNum 3) "entireItem" (fun _ => Ok JUndefined)
          None "all" demo_options)
       demo_items demo_ajv demo_options initState
     = (Throw (NodeOperationError
                 "Invalid JSON Schema: schema must be object or boolean"), initState).
Proof.
  destruct (X14_single_fatal_messages demo_parse) as (H1 & H2). split.
  - apply (H1 demo_bad_single demo_items demo_ajv demo_options initState "{broken"
             (Error "Unexpected token in JSON")); reflexivity.
  - apply (H2 _ demo_items demo_ajv demo_options initState (JNum 3)
             (Error "schema must be object or boolean")); reflexivity.
Defined.

Lemma X16_compiled_schemas_witness :
  compileSchemas demo_parse demo_ajv 0 demo_schemas = Ok demo_compiled
  /\ length demo_compiled = length demo_schemas
  /\ exists c schema,
       demo_compiled !! 1 = Some c
       /\ name c = "has-email"
       /\ name c <> EmptyString
       /\ dataPath c = EmptyString
       /\ parseSchema demo_parse (JObj {[ "required" := JStr "email" ]}) = Ok schema
       /\ compile demo_ajv schema = Ok (validator c).
Proof.
  split; [reflexivity|].
  destruct (X16_compiled_schemas demo_parse demo_ajv demo_schemas demo_compiled eq_refl)
    as (Hlen & Hall).
  split; [exact Hlen|].
  apply (Hall 1 (mkSchemaItem "has-email" (JObj {[ "required" := JStr "email" ]}) None)).
  reflexivity.
Defined.

Lemma X17_single_one_call_per_record_witness :
  exists s',
    executeSingleSchemaMode demo_parse demo_single demo_items demo_ajv demo_options
      initState = (Ok tt, s')
    /\ calls s'
       = map (fun item => mkCall (fn_id (demo_requires 5 "name")) (JObj (json item)))
           demo_items.
Proof.
  apply (X17_single_one_call_per_record demo_parse demo_single demo_items demo_ajv
           demo_options (JObj {[ "required" := JStr "name" ]}) (demo_requires 5 "name"));
    reflexivity.
Defined.


Lemma X19_single_diagnostic_shape_witness :
  exists s',
    executeSingleSchemaMode demo_parse demo_single demo_items demo_ajv demo_options
      initState = (Ok tt, s')
    /\ forall o, In o (invalidItems s') ->
       exists i item msg details,
         demo_items !! i = Some item
         /\ pairedItem o = Some i
         /\ json o !! "validationMessage" = Some (JStr msg)
         /\ json o !! "validationErrors" = Some details
         /\ (forall k, k <> "validationMessage" -> k <> "validationErrors" ->
               json o !! k
               = if truthy (includeOriginalData demo_options)
                 then json item !! k else None)
         /\ (binary o = None
             \/ (truthy (includeOriginalData demo_options) = true
                 /\ binary o = binary item)).
Proof.
  apply (X19_single_diagnostic_shape demo_parse demo_single demo_items demo_ajv
           demo_options (JObj {[ "required" := JStr "name" ]}) (demo_requires 5 "name"));
    reflexivity.
Defined.

Lemma X20_multi_diagnostic_shape_witness :
  exists s',
    executeMultipleSchemaMode demo_parse (demo_multi "all") demo_items demo_ajv
      demo_options initState = (Ok tt, s')
    /\ forall o, In o (invalidItems s') ->
       exists i item msg details,
         demo_items !! i = Some item
         /\ pairedItem o = Some i
         /\ json o !! "validationMessage" = Some (JStr msg)
         /\ json o !! "validationResults" = Some details
         /\ (forall k, k <> "validationMessage" -> k <> "validationResults" ->
               json o !! k
               = if truthy (includeOriginalData demo_options)
                 then json item !! k else None)
         /\ binary o
            = if truthy (includeOriginalData demo_options) then binary item else None.
Proof.
  apply (X20_multi_diagnostic_shape demo_parse (demo_multi "all") demo_items demo_ajv
           demo_options demo_compiled); [discriminate|reflexivity].
Defined.

Lemma X21_failed_schemas_witness :
  isItemValid "any" [mkMultiResult "a" false []; mkMultiResult "b" false []] = false
  /\ failedSchemas [mkMultiResult "a" false []; mkMultiResult "b" false []]
     = [mkMultiResult "a" false []; mkMultiResult "b" false []]
  /\ failedSchemas [mkMultiResult "a" true []; mkMultiResult "b" false []] <> [].
Proof.
  split; [reflexivity|]. split.
  - apply (X21_failed_schemas "any"
             [mkMultiResult "a" false []; mkMultiResult "b" false []]); reflexivity.
  - apply (X21_failed_schemas "all"
             [mkMultiResult "a" true []; mkMultiResult "b" false []]); reflexivity.
Defined.

Lemma X22_parseMultipleSchemas_witness :
  parseMultipleSchemas demo_parse (JStr "{}")
  = Throw (Error "Invalid schemas format: Expected an array of schemas")
  /\ parseSchema demo_parse (JStr "{}") = Ok (JObj ∅)
  /\ parseMultipleSchemas demo_parse (JStr "[]") = Ok (JArr [])
  /\ parseMultipleSchemas demo_parse (JStr "{broken")
     = Throw (Error "Invalid schemas format: Unexpected token in JSON").
Proof.
  destruct (X22_parseMultipleSchemas demo_parse) as (_ & H2 & H3 & H4).
  destruct (H2 "{}" (JObj ∅) eq_refl eq_refl) as (Ha & Hb).
  split; [exact Ha|]. split; [exact Hb|]. split.
  - apply (H4 "[]" []). reflexivity.
  - apply (H3 "{broken" (Error "Unexpected token in JSON")). reflexivity.
Defined.

Lemma X23_extractDataToValidate_failures_witness :
  extractDataToValidate demo_parse (demo_item ∅) "customJson" (JStr "{broken")
  = Throw (Error "Invalid custom JSON: Unexpected token in JSON")
  /\ extractDataToValidate demo_parse (demo_item ∅) "entireItem" (JStr "{broken")
     = Ok (JObj ∅)
  /\ extractDataToValidate demo_parse (demo_item ∅) "customJson" (JArr [JNull])
     = Ok (JArr [JNull]).
Proof.
  destruct (X23_extractDataToValidate_failures demo_parse) as (H1 & H2 & H3).
  split; [|split].
  - destruct (H1 (demo_item ∅) "customJson" (JStr "{broken")
                (Error "Invalid custom JSON: Unexpected token in JSON") eq_refl)
      as (_ & _). reflexivity.
  - apply H2. discriminate.
  - apply H3; [reflexivity|discriminate].
Defined.
